(** * Telco-Sentinel dashboard: ingestion, health estimator and alerts

    A shallow embedding of [app.py].  The script is a straight-line
    Streamlit page; what is embedded here is its data path:

    - [load_metadata]: the pandas pipeline that turns the metadata table
      into the discharge-cycle table [health_df];
    - the selection [b_history] and the estimator block that derives
      [soh], the regression line, [predicted_end_cycle] and
      [remaining_cycles];
    - the alert shown under the trend chart;
    - the choice of the columns plotted in the sensor tab.

    Numbers.  The script computes in binary64.  Finite values are embedded
    as exact rationals ([Q]); rounding of finite results is not modelled.
    What IS modelled is what numpy does where a rational has no answer:
    a division by zero yields an infinity or a NaN (a warning, not an
    exception), [max (0, x)] compares with [>], and [int] raises on an
    infinity or a NaN. *)

From Stdlib Require Import QArith Qround Qminmax Lqa ZArith Lia List Bool.
From Stdlib Require Import String Ascii Sorted Permutation OrdersEx.
From Stdlib Require Import RelationClasses Morphisms.
Import ListNotations.

Local Open Scope Q_scope.

(** ** Python results *)

Module Py.

Inductive exn : Set :=
| IndexError      (* positional indexer out of bounds *)
| OverflowError   (* int () of an infinity *)
| ValueError.     (* int () of a NaN, fit () on zero samples *)

Inductive result (A : Type) : Type :=
| Returned (a : A)
| Raised (e : exn).

Arguments Returned {A} a.
Arguments Raised {A} e.

Definition bind {A B : Type} (r : result A) (k : A -> result B) : result B :=
  match r with
  | Returned a => k a
  | Raised e => Raised e
  end.

Definition raises {A : Type} (r : result A) : Prop :=
  exists e, r = Raised e.

End Py.

Import Py.

Notation "x <- r ;; k" := (Py.bind r (fun x => k))
  (at level 61, r at next level, right associativity).

(** ** binary64 values, finite part exact *)

Inductive float64 : Set :=
| Fin (q : Q)
| PInf
| NInf
| NaN.

(** [a / b] on two finite values.  [negzero] is the sign bit of [b] when
    [b] is a zero: numpy returns [nan] for [0/0] and an infinity whose
    sign is the product of the signs otherwise. *)
Definition fdiv (negzero : bool) (a b : Q) : float64 :=
  if Qeq_bool b 0 then
    if Qeq_bool a 0 then NaN
    else if xorb (Qle_bool 0 a) negzero then PInf else NInf
  else Fin (a / b).

(** [x * k] for a finite [k]. *)
Definition fmul (x : float64) (k : Q) : float64 :=
  match x with
  | Fin q => Fin (q * k)
  | PInf => if Qeq_bool k 0 then NaN else if Qle_bool 0 k then PInf else NInf
  | NInf => if Qeq_bool k 0 then NaN else if Qle_bool 0 k then NInf else PInf
  | NaN => NaN
  end.

(** [x - k] for a finite [k]. *)
Definition fsub (x : float64) (k : Q) : float64 :=
  match x with
  | Fin q => Fin (q - k)
  | other => other
  end.

(** [x > 0]; every comparison with a NaN is false. *)
Definition fgt0 (x : float64) : bool :=
  match x with
  | Fin q => negb (Qle_bool q 0)
  | PInf => true
  | NInf => false
  | NaN => false
  end.

(** The builtin [max (0, x)]: the first argument is kept unless the
    second compares greater. *)
Definition py_max0 (x : float64) : float64 :=
  if fgt0 x then x else Fin 0.

(** Truncation toward zero of a rational. *)
Definition Qtrunc (q : Q) : Z := Z.quot (Qnum q) (Zpos (Qden q)).

(** The builtin [int] on a float. *)
Definition py_int (x : float64) : result Z :=
  match x with
  | Fin q => Returned (Qtrunc q)
  | PInf => Raised OverflowError
  | NInf => Raised OverflowError
  | NaN => Raised ValueError
  end.

(** [.iloc[0]] and [.iloc[-1]] on a column. *)
Definition iloc_first {A : Type} (col : list A) : result A :=
  match col with
  | [] => Raised IndexError
  | a :: _ => Returned a
  end.

Fixpoint iloc_last {A : Type} (col : list A) : result A :=
  match col with
  | [] => Raised IndexError
  | [a] => Returned a
  | _ :: rest => iloc_last rest
  end.

(** ** Tables *)

(** A [Capacity] cell of [metadata.csv] as [pd.to_numeric] sees it. *)
Inductive cell : Set :=
| Numeric (q : Q)
| Malformed (text : string).

(** [pd.to_numeric (..., errors='coerce')]: [None] stands for the NaN that
    [dropna] removes. *)
Definition to_numeric (x : cell) : option Q :=
  match x with
  | Numeric q => Some q
  | Malformed _ => None
  end.

(** A row of [metadata.csv]. *)
Record MetaRow : Set := {
  battery_id : string;
  test_id : Z;
  type : string;
  raw_Capacity : cell;
  filename : string;
  ambient_temperature : Q
}.

(** A row of [health_df]: the metadata row it comes from, its coerced
    [Capacity] and the [cycle] column added by [load_metadata]. *)
Record HealthRow : Set := {
  meta : MetaRow;
  Capacity : Q;
  cycle : Z
}.

(** ** Ingestion *)

(** [df[df['type'] == 'discharge'].dropna (subset=['Capacity'])] after the
    coercion of the column; the row keeps its number. *)
Fixpoint discharge_rows (df : list MetaRow) : list (MetaRow * Q) :=
  match df with
  | [] => []
  | r :: rest =>
      if String.eqb (type r) "discharge" then
        match to_numeric (raw_Capacity r) with
        | Some q => (r, q) :: discharge_rows rest
        | None => discharge_rows rest
        end
      else discharge_rows rest
  end.

(** The order of [sort_values (['battery_id', 'test_id'])]: strings by
    code point, then the test number. *)
Definition key_leb (a b : MetaRow) : bool :=
  match String_as_OT.compare (battery_id a) (battery_id b) with
  | Lt => true
  | Eq => Z.leb (test_id a) (test_id b)
  | Gt => false
  end.

Definition key_le (a b : MetaRow) : Prop := key_leb a b = true.

Fixpoint insert_row (x : MetaRow * Q) (l : list (MetaRow * Q)) :=
  match l with
  | [] => [x]
  | y :: rest =>
      if key_leb (fst x) (fst y) then x :: l else y :: insert_row x rest
  end.

(** A stable sort, as the multi-key [sort_values] is. *)
Fixpoint sort_values (l : list (MetaRow * Q)) : list (MetaRow * Q) :=
  match l with
  | [] => []
  | x :: rest => insert_row x (sort_values rest)
  end.

(** [groupby ('battery_id').cumcount () + 1]: a row's number is one more
    than the count of rows of its battery above it.  [above] holds the
    battery ids of the rows already passed. *)
Fixpoint add_cycle (above : list string) (l : list (MetaRow * Q))
  : list HealthRow :=
  match l with
  | [] => []
  | (r, q) :: rest =>
      {| meta := r; Capacity := q;
         cycle := (Z.of_nat (count_occ string_dec above (battery_id r)) + 1)%Z |}
      :: add_cycle (battery_id r :: above) rest
  end.

(** [load_metadata], second component ([health_df]); the first component
    is the table as read. *)
Definition load_metadata (df : list MetaRow) : list MetaRow * list HealthRow :=
  (df, add_cycle [] (sort_values (discharge_rows df))).

(** [health_data[health_data['battery_id'] == selected_id]] *)
Definition select_battery (health_data : list HealthRow) (selected_id : string)
  : list HealthRow :=
  filter (fun r => String.eqb (battery_id (meta r)) selected_id) health_data.

Definition b_history (df : list MetaRow) (selected_id : string) : list HealthRow :=
  select_battery (snd (load_metadata df)) selected_id.

(** ** The regression line *)

Definition Qsum (l : list Q) : Q := fold_right Qplus 0 l.

Definition mean (l : list Q) : Q :=
  Qsum l / inject_Z (Z.of_nat (List.length l)).

(** The fitted attributes of [LinearRegression]. *)
Record LinearRegression : Set := {
  coef_ : Q;
  intercept_ : Q
}.

(** What [LinearRegression ().fit (X, y)] solves for one feature: the
    library centres both columns on their means, solves the least-squares
    problem for the centred data and sets the intercept from the means.
    With one column the solution is [sxy / sxx]; where the column is
    constant the centred problem has rank 0 and the minimum-norm solution
    is zero. *)
Definition lstsq_line (X y : list Q) : LinearRegression :=
  let X_offset := mean X in
  let y_offset := mean y in
  let Xc := map (fun x => x - X_offset) X in
  let yc := map (fun v => v - y_offset) y in
  let sxx := Qsum (map (fun x => x * x) Xc) in
  let sxy := Qsum (map (fun p => fst p * snd p) (combine Xc yc)) in
  let w := if Qeq_bool sxx 0 then 0 else sxy / sxx in
  {| coef_ := w; intercept_ := y_offset - X_offset * w |}.

(** [fit] refuses a table of zero samples. *)
Definition fit (X y : list Q) : result LinearRegression :=
  match X with
  | [] => Raised ValueError
  | _ :: _ => Returned (lstsq_line X y)
  end.

(** Sum of squared residuals of the line [y = m x + c] on the data. *)
Definition sse (X y : list Q) (m c : Q) : Q :=
  Qsum (map (fun p => (snd p - (m * fst p + c)) * (snd p - (m * fst p + c)))
            (combine X y)).

(** ** The estimator *)

(** Line 26.  The literal [1.4] is embedded as the rational it denotes,
    as every finite value is; the nearest binary64 value differs from it
    by less than 1e-16. *)
Definition EOL_THRESHOLD : Q := 14 # 10.

(** [X = b_history[['cycle']].values] and [y = b_history['Capacity'].values] *)
Definition cycles_of (h : list HealthRow) : list Q :=
  map (fun r => inject_Z (cycle r)) h.

Definition capacities_of (h : list HealthRow) : list Q := map Capacity h.

(** The line fitted to a whole history. *)
Definition trend (h : list HealthRow) : LinearRegression :=
  lstsq_line (cycles_of h) (capacities_of h).

(** The variables of the block [DATA FILTERING]. *)
Record Filtered : Set := {
  current_cycle : Z;
  latest_capacity : Q;
  start_capacity : Q;
  soh : float64
}.

(** The variables of the block [PREDICTION ENGINE]. *)
Record Prediction : Set := {
  m : Q;
  c : Q;
  predicted_end_cycle : float64;
  remaining_cycles : Z
}.

(** Lines 67-71.  A capacity read from the file is taken to carry a
    positive sign when it is a zero. *)
Definition data_filtering (b_history : list HealthRow) : result Filtered :=
  current_cycle <- iloc_last (map cycle b_history) ;;
  latest_capacity <- iloc_last (map Capacity b_history) ;;
  start_capacity <- iloc_first (map Capacity b_history) ;;
  let soh := fmul (fdiv false latest_capacity start_capacity) 100 in
  Returned {| current_cycle := current_cycle;
              latest_capacity := latest_capacity;
              start_capacity := start_capacity;
              soh := soh |}.

Section Estimator.

(** The sign bit of the fitted coefficient when it is a zero.  The
    closed form above does not determine it (the library's solver
    returns some zero), and it decides which infinity the division
    by [m] produces. *)
Variable coef_negzero : bool.

(** Lines 74-83. *)
Definition prediction_engine (b_history : list HealthRow) (current_cycle : Z)
  : result Prediction :=
  let X := cycles_of b_history in
  let y := capacities_of b_history in
  model <- fit X y ;;
  let m := coef_ model in
  let c := intercept_ model in
  let predicted_end_cycle := fdiv coef_negzero (EOL_THRESHOLD - c) m in
  remaining_cycles <-
    py_int (py_max0 (fsub predicted_end_cycle (inject_Z current_cycle))) ;;
  Returned {| m := m; c := c;
              predicted_end_cycle := predicted_end_cycle;
              remaining_cycles := remaining_cycles |}.

(** Lines 67-83: both blocks, in the order of the script. *)
Definition estimate (b_history : list HealthRow)
  : result (Filtered * Prediction) :=
  f <- data_filtering b_history ;;
  p <- prediction_engine b_history (current_cycle f) ;;
  Returned (f, p).

End Estimator.

(** ** Alerts *)

Inductive alert : Set :=
| URGENT     (* st.error *)
| HEALTHY.   (* st.success *)

(** Lines 119-122. *)
Definition classify (remaining_cycles : Z) : alert :=
  if (remaining_cycles <? 15)%Z then URGENT else HEALTHY.

(** ** The forecast line *)

(** [x + k] for a finite [k]. *)
Definition fadd (x : float64) (k : Q) : float64 :=
  match x with
  | Fin q => Fin (q + k)
  | other => other
  end.

Definition is_finite (x : float64) : bool :=
  match x with
  | Fin _ => true
  | _ => false
  end.

(** [model.predict] on a column of inputs: the library validates the
    whole array first and refuses an infinity or a NaN with ValueError;
    otherwise each value is [x * coef_ + intercept_]. *)
Definition predict (model : LinearRegression) (X : list float64)
  : result (list float64) :=
  if forallb is_finite X
  then Returned (map (fun x => fadd (fmul x (coef_ model)) (intercept_ model))
                     X)
  else Raised ValueError.

(** Lines 107-108: the two ends of the dashed forecast line,
    [future_x] paired with [future_y]. *)
Definition forecast (model : LinearRegression) (predicted_end_cycle : float64)
  : result (list (float64 * float64)) :=
  let future_x := [Fin 1; fadd predicted_end_cycle 20] in
  future_y <- predict model future_x ;;
  Returned (combine future_x future_y).

(** Lines 67-122, as far as the alert: the estimator, the forecast drawn
    on the chart, then the alert; or the exception that stops the script
    before the alert is reached. *)
Definition page_alert (coef_negzero : bool) (b_history : list HealthRow)
  : result alert :=
  e <- estimate coef_negzero b_history ;;
  _ <- forecast (trend b_history) (predicted_end_cycle (snd e)) ;;
  Returned (classify (remaining_cycles (snd e))).

(** ** Sensor tab: the plotted columns *)

Definition has_column (name : string) (columns : list string) : bool :=
  existsb (String.eqb name) columns.

(** Line 138. *)
Definition v_col (columns : list string) : result string :=
  if has_column "Voltage_measured" columns
  then Returned "Voltage_measured"%string
  else iloc_first columns.

(** Line 139. *)
Definition t_col (columns : list string) : result string :=
  if has_column "Temperature_measured" columns
  then Returned "Temperature_measured"%string
  else iloc_first columns.

(** ** Predicates and histories used in the statements *)

(** Sum of [f] over a table, and the number of its rows as a rational. *)
Definition sum_over {A : Type} (f : A -> Q) (l : list A) : Q :=
  Qsum (map f l).

Definition count_of {A : Type} (l : list A) : Q :=
  inject_Z (Z.of_nat (List.length l)).

(** The two columns the regression reads. *)
Definition cyc (r : HealthRow) : Q := inject_Z (cycle r).

(** Cycle numbers grow and capacities fall, between any two records. *)
Definition wears (a b : HealthRow) : Prop :=
  (cycle a < cycle b)%Z /\ Capacity b < Capacity a.

(** The cycle column of a battery's history counts 1, 2, ..., N. *)
Definition well_numbered (h : list HealthRow) : Prop :=
  map cycle h = map Z.of_nat (seq 1 (List.length h)).

(** Each record holds strictly less capacity than the one before it. *)
Definition strictly_decreasing (h : list HealthRow) : Prop :=
  Sorted (fun a b => Capacity b < Capacity a) h.

(** The rows [load_metadata] keeps. *)
Definition kept (r : MetaRow) : bool :=
  String.eqb (type r) "discharge" &&
  match to_numeric (raw_Capacity r) with Some _ => true | None => false end.

Definition by_test_id (a b : HealthRow) : Prop :=
  (test_id (meta a) <= test_id (meta b))%Z.

Definition row (id : string) (t : Z) (cap : Q) (cyc : Z) : HealthRow :=
  {| meta := {| battery_id := id; test_id := t; type := "discharge";
                raw_Capacity := Numeric cap; filename := "";
                ambient_temperature := 24 |};
     Capacity := cap; cycle := cyc |}.

(** The history with capacities [caps] at cycles [from], [from + 1], ... *)
Fixpoint history_from (from : Z) (caps : list Q) : list HealthRow :=
  match caps with
  | [] => []
  | q :: rest => row "B0005" from q from :: history_from (from + 1) rest
  end.

Definition meta_row (id : string) (t : Z) (ty : string) (cap : cell)
  : MetaRow :=
  {| battery_id := id; test_id := t; type := ty; raw_Capacity := cap;
     filename := ""; ambient_temperature := 24 |}.

(** A metadata table with the three test types, out of order, with a
    malformed and an empty capacity. *)
Definition sample_metadata : list MetaRow :=
  [ meta_row "B0005" 3 "discharge" (Numeric (18 # 10));
    meta_row "B0006" 1 "discharge" (Malformed "n/a");
    meta_row "B0005" 2 "charge" (Malformed "");
    meta_row "B0005" 1 "discharge" (Numeric 2);
    meta_row "B0005" 4 "impedance" (Malformed "");
    meta_row "B0006" 0 "discharge" (Numeric (19 # 10));
    meta_row "B0005" 5 "discharge" (Malformed "[]") ].

Definition scenario_decline : list HealthRow :=
  history_from 1 [2; 18 # 10; 16 # 10].

Definition scenario_flat : list HealthRow := history_from 1 [2; 2; 2].

Definition scenario_flat_low : list HealthRow := history_from 1 [1; 1; 1].

Definition scenario_rising : list HealthRow :=
  history_from 1 [2; 21 # 10; 23 # 10].

Definition scenario_zero_baseline : list HealthRow :=
  history_from 1 [0; 1; 3].

(** ** The rest of the page *)

(** [Series.unique ()]: the values in the order they first appear;
    [seen] holds those already met. *)
Fixpoint unique_from (seen : list string) (l : list string) : list string :=
  match l with
  | [] => []
  | x :: rest =>
      if existsb (String.eqb x) seen then unique_from seen rest
      else x :: unique_from (x :: seen) rest
  end.

Definition unique (l : list string) : list string := unique_from [] l.

Definition string_leb (a b : string) : bool :=
  match String_as_OT.compare a b with
  | Gt => false
  | _ => true
  end.

Fixpoint insert_string (x : string) (l : list string) : list string :=
  match l with
  | [] => [x]
  | y :: rest => if string_leb x y then x :: l else y :: insert_string x rest
  end.

(** The builtin [sorted] on strings. *)
Fixpoint sorted (l : list string) : list string :=
  match l with
  | [] => []
  | x :: rest => insert_string x (sorted rest)
  end.

(** Line 60. *)
Definition battery_list (health_data : list HealthRow) : list string :=
  sorted (unique (map (fun r => battery_id (meta r)) health_data)).

(** [st.selectbox]: the option the user picked, by position; [None] when
    there is nothing to pick from.  The widget offers no position outside
    the list. *)
Definition selectbox {A : Type} (options : list A) (choice : nat) : option A :=
  nth_error options choice.

(** Line 67 with the widget's value: comparing the column with [None]
    selects no row. *)
Definition select_rows (health_data : list HealthRow)
           (selected_id : option string) : list HealthRow :=
  match selected_id with
  | Some id => select_battery health_data id
  | None => []
  end.

(** Lines 53-83 for one table and one pick in the sidebar. *)
Definition page_estimate (coef_negzero : bool) (df : list MetaRow)
           (choice : nat) : result (Filtered * Prediction) :=
  let health_data := snd (load_metadata df) in
  let selected_id := selectbox (battery_list health_data) choice in
  estimate coef_negzero (select_rows health_data selected_id).

Fixpoint insert_desc (x : MetaRow) (l : list MetaRow) : list MetaRow :=
  match l with
  | [] => [x]
  | y :: rest =>
      if (test_id y <=? test_id x)%Z then x :: l else y :: insert_desc x rest
  end.

(** [sort_values ('test_id', ascending=False)] *)
Fixpoint sort_test_id_desc (l : list MetaRow) : list MetaRow :=
  match l with
  | [] => []
  | x :: rest => insert_desc x (sort_test_id_desc rest)
  end.

(** Line 129: every log of the battery, latest test first. *)
Definition site_files (metadata_all : list MetaRow) (selected_id : string)
  : list MetaRow :=
  sort_test_id_desc
    (filter (fun r => String.eqb (battery_id r) selected_id) metadata_all).

Definition of_battery (id : string) (r : MetaRow) : bool :=
  String.eqb (battery_id r) id.

(** * Proofs *)

(** ** Sums over a table *)

Section Sums.

Context {A : Type}.
Implicit Types (f g : A -> Q) (l : list A).

Lemma sum_over_cons f a l : sum_over f (a :: l) = f a + sum_over f l.
Proof. reflexivity. Qed.

Lemma count_of_cons (a : A) l : count_of (a :: l) == count_of l + 1.
Proof.
  unfold count_of. cbn [List.length].
  rewrite Nat2Z.inj_succ, <- Z.add_1_r, inject_Z_plus. reflexivity.
Qed.

Lemma count_of_nonneg l : 0 <= count_of l.
Proof.
  unfold count_of. change 0 with (inject_Z 0).
  rewrite <- Zle_Qle. lia.
Qed.

Lemma count_of_pos (a : A) l : 0 < count_of (a :: l).
Proof.
  rewrite count_of_cons. pose proof (count_of_nonneg l). lra.
Qed.

Lemma sum_over_ext_in f g l :
  (forall a, In a l -> f a == g a) -> sum_over f l == sum_over g l.
Proof.
  induction l as [|a l IH]; intros H.
  - reflexivity.
  - rewrite !sum_over_cons.
    assert (Ha : f a == g a) by (apply H; simpl; auto).
    assert (Hl : sum_over f l == sum_over g l)
      by (apply IH; intros; apply H; simpl; auto).
    rewrite Ha, Hl. reflexivity.
Qed.

Lemma sum_over_plus f g l :
  sum_over (fun a => f a + g a) l == sum_over f l + sum_over g l.
Proof.
  induction l as [|a l IH].
  - reflexivity.
  - rewrite !sum_over_cons, IH. ring.
Qed.

Lemma sum_over_scale k f l :
  sum_over (fun a => k * f a) l == k * sum_over f l.
Proof.
  induction l as [|a l IH].
  - unfold sum_over; simpl. ring.
  - rewrite !sum_over_cons, IH. ring.
Qed.

Lemma sum_over_const k l : sum_over (fun _ => k) l == k * count_of l.
Proof.
  induction l as [|a l IH].
  - unfold sum_over, count_of; simpl. ring.
  - rewrite sum_over_cons, count_of_cons, IH. ring.
Qed.

Lemma sum_over_nonneg f l :
  (forall a, In a l -> 0 <= f a) -> 0 <= sum_over f l.
Proof.
  induction l as [|a l IH]; intros H.
  - unfold sum_over; simpl. lra.
  - rewrite sum_over_cons.
    assert (0 <= f a) by (apply H; simpl; auto).
    assert (0 <= sum_over f l) by (apply IH; intros; apply H; simpl; auto).
    lra.
Qed.

Lemma sum_over_zero f l :
  (forall a, In a l -> 0 <= f a) -> sum_over f l == 0 ->
  forall a, In a l -> f a == 0.
Proof.
  induction l as [|b l IH]; intros H Hz a Ha.
  - destruct Ha.
  - rewrite sum_over_cons in Hz.
    assert (0 <= f b) by (apply H; simpl; auto).
    assert (0 <= sum_over f l)
      by (apply sum_over_nonneg; intros; apply H; simpl; auto).
    destruct Ha as [<-|Ha].
    + lra.
    + apply IH; auto.
      * intros; apply H; simpl; auto.
      * lra.
Qed.

Lemma sum_over_le f g l :
  (forall a, In a l -> f a <= g a) -> sum_over f l <= sum_over g l.
Proof.
  induction l as [|a l IH]; intros H.
  - unfold sum_over; simpl. lra.
  - rewrite !sum_over_cons.
    assert (f a <= g a) by (apply H; simpl; auto).
    assert (sum_over f l <= sum_over g l)
      by (apply IH; intros; apply H; simpl; auto).
    lra.
Qed.

Lemma sum_over_lt f g a l :
  (forall b, In b (a :: l) -> f b < g b) ->
  sum_over f (a :: l) < sum_over g (a :: l).
Proof.
  intros H. rewrite !sum_over_cons.
  assert (f a < g a) by (apply H; simpl; auto).
  assert (sum_over f l <= sum_over g l).
  { apply sum_over_le. intros b Hb. apply Qlt_le_weak, H. simpl; auto. }
  lra.
Qed.

(** [n * mean = sum], also for the empty table (both sides are 0). *)
Lemma count_mean f l : count_of l * mean (map f l) == sum_over f l.
Proof.
  unfold mean. rewrite length_map. fold (count_of l). fold (sum_over f l).
  destruct l as [|a l].
  - unfold sum_over, count_of; simpl. reflexivity.
  - pose proof (count_of_pos a l). field. lra.
Qed.

End Sums.

Lemma combine_map {A B C : Type} (f : A -> B) (g : A -> C) (l : list A) :
  combine (map f l) (map g l) = map (fun a => (f a, g a)) l.
Proof.
  induction l as [|a l IH]; simpl; [reflexivity | now rewrite IH].
Qed.

Lemma Qsquare_nonneg (q : Q) : 0 <= q * q.
Proof. nra. Qed.

Ltac sum_induction l :=
  let IH := fresh "IH" in
  induction l as [|? l IH];
  [ unfold sum_over, count_of; simpl; ring
  | rewrite ?sum_over_cons, ?count_of_cons, IH; ring ].

(** ** The fitted line, as sums over the rows *)

Section Line.

Context {A : Type} (fx fy : A -> Q).
Implicit Types l : list A.

Local Abbreviation xbar l := (mean (map fx l)).
Local Abbreviation ybar l := (mean (map fy l)).
Local Abbreviation sxx l :=
  (sum_over (fun a => (fx a - xbar l) * (fx a - xbar l)) l).
Local Abbreviation sxy l :=
  (sum_over (fun a => (fx a - xbar l) * (fy a - ybar l)) l).
Local Abbreviation line l := (lstsq_line (map fx l) (map fy l)).

Lemma lstsq_line_sums l :
  line l =
  let w := if Qeq_bool (sxx l) 0 then 0 else sxy l / sxx l in
  {| coef_ := w; intercept_ := ybar l - xbar l * w |}.
Proof.
  unfold lstsq_line, sum_over.
  rewrite !map_map, combine_map, map_map. reflexivity.
Qed.

Lemma sse_sums l w k :
  sse (map fx l) (map fy l) w k =
  sum_over (fun a => (fy a - (w * fx a + k)) * (fy a - (w * fx a + k))) l.
Proof.
  unfold sse, sum_over. rewrite combine_map, map_map. reflexivity.
Qed.

Lemma intercept_coef l :
  intercept_ (line l) = ybar l - xbar l * coef_ (line l).
Proof. rewrite lstsq_line_sums. reflexivity. Qed.

Lemma sxx_nonneg l : 0 <= sxx l.
Proof.
  apply sum_over_nonneg. intros a _.
  apply Qsquare_nonneg.
Qed.

(** A constant [X] column leaves no covariance. *)
Lemma sxx_zero_sxy l : sxx l == 0 -> sxy l == 0.
Proof.
  intros Hz.
  assert (Hall : forall a, In a l -> fx a - xbar l == 0).
  { intros a Ha.
    assert (Hsq : (fx a - xbar l) * (fx a - xbar l) == 0).
    { apply (sum_over_zero
               (fun a => (fx a - xbar l) * (fx a - xbar l)) l); auto.
      intros b _. apply Qsquare_nonneg. }
    apply Qmult_integral in Hsq. tauto. }
  rewrite (sum_over_ext_in _ (fun _ => 0)).
  - rewrite sum_over_const. ring.
  - intros a Ha. rewrite (Hall a Ha). ring.
Qed.

(** The slope solves [w * sxx = sxy]. *)
Lemma coef_normal l : coef_ (line l) * sxx l == sxy l.
Proof.
  rewrite lstsq_line_sums. cbn [coef_].
  destruct (Qeq_bool (sxx l) 0) eqn:E.
  - apply Qeq_bool_iff in E. rewrite (sxx_zero_sxy l E), E. ring.
  - apply Qeq_bool_neq in E. field. exact E.
Qed.

Lemma coef_zero_or_ratio l :
  (sxx l == 0 /\ coef_ (line l) = 0) \/
  (~ sxx l == 0 /\ coef_ (line l) = sxy l / sxx l).
Proof.
  rewrite lstsq_line_sums. cbn [coef_].
  destruct (Qeq_bool (sxx l) 0) eqn:E.
  - left. split; [now apply Qeq_bool_iff | reflexivity].
  - right. split; [now apply Qeq_bool_neq | reflexivity].
Qed.

Lemma resid_expand l w xb yb :
  sum_over (fun a => fy a - (w * fx a + (yb - xb * w))) l ==
  sum_over fy l - count_of l * yb - w * (sum_over fx l - count_of l * xb).
Proof. sum_induction l. Qed.

Lemma resid_centred_expand l w xb yb :
  sum_over (fun a => (fy a - (w * fx a + (yb - xb * w))) * (fx a - xb)) l ==
  sum_over (fun a => (fx a - xb) * (fy a - yb)) l
  - w * sum_over (fun a => (fx a - xb) * (fx a - xb)) l.
Proof. sum_induction l. Qed.

Lemma resid_shift l (r : A -> Q) xb :
  sum_over (fun a => r a * fx a) l ==
  sum_over (fun a => r a * (fx a - xb)) l + xb * sum_over r l.
Proof. sum_induction l. Qed.

(** The residuals of the fitted line sum to zero ... *)
Lemma resid_sum l :
  sum_over (fun a => fy a - (coef_ (line l) * fx a + intercept_ (line l))) l
  == 0.
Proof.
  rewrite intercept_coef, resid_expand.
  rewrite <- (count_mean fx l), <- (count_mean fy l). ring.
Qed.

(** ... and are orthogonal to the [X] column. *)
Lemma resid_sum_x l :
  sum_over (fun a => (fy a - (coef_ (line l) * fx a + intercept_ (line l)))
                     * fx a) l == 0.
Proof.
  rewrite (resid_shift l _ (xbar l)), resid_sum.
  rewrite intercept_coef, resid_centred_expand, <- coef_normal. ring.
Qed.

Lemma sse_expand l w k w' k' :
  sum_over (fun a => (fy a - (w' * fx a + k')) * (fy a - (w' * fx a + k'))) l
  == sum_over (fun a => (fy a - (w * fx a + k)) * (fy a - (w * fx a + k))) l
     + sum_over (fun a => ((w' - w) * fx a + (k' - k))
                          * ((w' - w) * fx a + (k' - k))) l
     - (2 # 1) * ((w' - w) * sum_over (fun a => (fy a - (w * fx a + k)) * fx a) l
                  + (k' - k) * sum_over (fun a => fy a - (w * fx a + k)) l).
Proof. sum_induction l. Qed.

(** No line has a smaller sum of squared residuals than the fitted one. *)
Lemma lstsq_line_minimal l w' k' :
  sse (map fx l) (map fy l) (coef_ (line l)) (intercept_ (line l))
  <= sse (map fx l) (map fy l) w' k'.
Proof.
  rewrite !sse_sums.
  rewrite (sse_expand l (coef_ (line l)) (intercept_ (line l)) w' k').
  rewrite resid_sum, resid_sum_x.
  set (w := coef_ (line l)). set (k := intercept_ (line l)).
  assert (0 <= sum_over (fun a => ((w' - w) * fx a + (k' - k))
                                  * ((w' - w) * fx a + (k' - k))) l).
  { apply sum_over_nonneg. intros a _. apply Qsquare_nonneg. }
  lra.
Qed.

(** *** The sign of the slope *)

Local Abbreviation cov_n l :=
  (count_of l * sum_over (fun a => fx a * fy a) l
   - sum_over fx l * sum_over fy l).

Lemma centred_expand l xb yb :
  sum_over (fun a => (fx a - xb) * (fy a - yb)) l ==
  sum_over (fun a => fx a * fy a) l - xb * sum_over fy l
  - yb * sum_over fx l + count_of l * xb * yb.
Proof. sum_induction l. Qed.

Lemma count_sxy l : count_of l * sxy l == cov_n l.
Proof.
  rewrite centred_expand.
  pose proof (count_mean fx l) as Hx. pose proof (count_mean fy l) as Hy.
  set (n := count_of l) in *. set (xb := xbar l) in *. set (yb := ybar l) in *.
  setoid_replace
    (n * (sum_over (fun a => fx a * fy a) l - xb * sum_over fy l
          - yb * sum_over fx l + n * xb * yb))
    with (n * sum_over (fun a => fx a * fy a) l - (n * xb) * sum_over fy l
          - (n * yb) * sum_over fx l + (n * xb) * (n * yb)) by ring.
  rewrite Hx, Hy. ring.
Qed.

Lemma cov_n_cons a l :
  cov_n (a :: l) ==
  cov_n l + sum_over (fun b => (fx b - fx a) * (fy b - fy a)) l.
Proof.
  rewrite !sum_over_cons, count_of_cons, centred_expand. ring.
Qed.

Lemma cov_n_nonpos l :
  StronglySorted (fun a b => fx a < fx b /\ fy b < fy a) l -> cov_n l <= 0.
Proof.
  induction 1 as [|a l Hs IH Hall].
  - unfold sum_over, count_of; simpl. lra.
  - rewrite cov_n_cons.
    assert (sum_over (fun b => (fx b - fx a) * (fy b - fy a)) l
            <= sum_over (fun _ => 0) l).
    { apply sum_over_le. intros b Hb.
      rewrite Forall_forall in Hall. destruct (Hall b Hb). nra. }
    rewrite sum_over_const in H. lra.
Qed.

Lemma cov_n_neg a b l :
  StronglySorted (fun a b => fx a < fx b /\ fy b < fy a) (a :: b :: l) ->
  cov_n (a :: b :: l) < 0.
Proof.
  intros Hs. inversion Hs as [|? ? Hs' Hall]; subst.
  rewrite cov_n_cons.
  pose proof (cov_n_nonpos _ Hs') as Hle.
  assert (sum_over (fun r => (fx r - fx a) * (fy r - fy a)) (b :: l)
          < sum_over (fun _ => 0) (b :: l)).
  { apply sum_over_lt. intros r Hr.
    rewrite Forall_forall in Hall. destruct (Hall r Hr). nra. }
  rewrite sum_over_const in H. lra.
Qed.

Lemma sxx_pos a b l : ~ fx a == fx b -> 0 < sxx (a :: b :: l).
Proof.
  intros Hne.
  destruct (Qlt_le_dec 0 (sxx (a :: b :: l))) as [|Hle]; [assumption|].
  exfalso.
  assert (Hz : sxx (a :: b :: l) == 0).
  { pose proof (sxx_nonneg (a :: b :: l)). lra. }
  assert (Hall : forall r, In r (a :: b :: l) ->
                 (fx r - xbar (a :: b :: l)) * (fx r - xbar (a :: b :: l)) == 0).
  { apply (sum_over_zero
             (fun r => (fx r - xbar (a :: b :: l))
                       * (fx r - xbar (a :: b :: l)))); auto.
    intros r _. apply Qsquare_nonneg. }
  pose proof (Hall a (or_introl eq_refl)) as Ha.
  pose proof (Hall b (or_intror (or_introl eq_refl))) as Hb.
  apply Qmult_integral in Ha. apply Qmult_integral in Hb.
  apply Hne. lra.
Qed.

(** A table whose [X] grows while its [Y] falls has a negative slope. *)
Lemma coef_neg a b l :
  StronglySorted (fun a b => fx a < fx b /\ fy b < fy a) (a :: b :: l) ->
  coef_ (line (a :: b :: l)) < 0.
Proof.
  intros Hs.
  assert (Hab : fx a < fx b).
  { inversion Hs as [|? ? _ Hall]; subst.
    rewrite Forall_forall in Hall. apply (Hall b). simpl; auto. }
  assert (Hxx : 0 < sxx (a :: b :: l)) by (apply sxx_pos; lra).
  assert (Hxy : sxy (a :: b :: l) < 0).
  { pose proof (cov_n_neg a b l Hs) as Hc.
    rewrite <- count_sxy in Hc.
    pose proof (count_of_pos a (b :: l)). nra. }
  destruct (coef_zero_or_ratio (a :: b :: l)) as [[Hz _]|[_ ->]]; [lra|].
  apply Qlt_shift_div_r; [assumption | lra].
Qed.

(** *** Means between bounds *)

Lemma mean_le_bound a l k :
  (forall r, In r (a :: l) -> fx r <= k) -> xbar (a :: l) <= k.
Proof.
  intros H.
  assert (Hs : sum_over fx (a :: l) <= sum_over (fun _ => k) (a :: l))
    by (apply sum_over_le; assumption).
  rewrite sum_over_const, <- (count_mean fx) in Hs.
  pose proof (count_of_pos a l). nra.
Qed.

Lemma mean_gt_bound a l k :
  (forall r, In r (a :: l) -> k < fy r) -> k < ybar (a :: l).
Proof.
  intros H.
  assert (Hs : sum_over (fun _ => k) (a :: l) < sum_over fy (a :: l))
    by (apply sum_over_lt; assumption).
  rewrite sum_over_const, <- (count_mean fy) in Hs.
  pose proof (count_of_pos a l). nra.
Qed.

(** With a rising line, every [Y] above [t] and no [X] beyond [cur], the
    line meets [t] before [cur]. *)
Lemma crossing_before a l t cur :
  0 < coef_ (line (a :: l)) ->
  (forall r, In r (a :: l) -> t < fy r) ->
  (forall r, In r (a :: l) -> fx r <= cur) ->
  (t - intercept_ (line (a :: l))) / coef_ (line (a :: l)) - cur < 0.
Proof.
  intros Hw Hy Hx.
  pose proof (mean_le_bound a l cur Hx) as Hxb.
  pose proof (mean_gt_bound a l t Hy) as Hyb.
  rewrite intercept_coef.
  set (w := coef_ (line (a :: l))) in *.
  set (xb := xbar (a :: l)) in *. set (yb := ybar (a :: l)) in *.
  assert (Hq : (t - (yb - xb * w)) / w < cur).
  { apply Qlt_shift_div_r; [assumption|]. nra. }
  lra.
Qed.

End Line.

(** ** Evaluating the estimator *)

Lemma last_cons {A : Type} (a b : A) (l : list A) :
  last (b :: l) a = last l b.
Proof.
  revert a b. induction l as [|x l IH]; intros a b.
  - reflexivity.
  - change (last (b :: x :: l) a) with (last (x :: l) a).
    now rewrite !IH.
Qed.

Lemma iloc_last_map {A B : Type} (f : A -> B) (a : A) (l : list A) :
  iloc_last (map f (a :: l)) = Returned (f (last l a)).
Proof.
  revert a. induction l as [|b l IH]; intros a.
  - reflexivity.
  - change (iloc_last (map f (a :: b :: l))) with (iloc_last (map f (b :: l))).
    rewrite IH. cbn [last]. destruct l; [reflexivity|].
    now rewrite !last_cons.
Qed.

Lemma data_filtering_cons (a : HealthRow) (l : list HealthRow) :
  data_filtering (a :: l) =
  Returned {| current_cycle := cycle (last l a);
              latest_capacity := Capacity (last l a);
              start_capacity := Capacity a;
              soh := fmul (fdiv false (Capacity (last l a)) (Capacity a)) 100 |}.
Proof.
  unfold data_filtering. rewrite !iloc_last_map. reflexivity.
Qed.

Lemma prediction_engine_cons z (a : HealthRow) (l : list HealthRow) (cur : Z) :
  prediction_engine z (a :: l) cur =
  let w := coef_ (trend (a :: l)) in
  let k := intercept_ (trend (a :: l)) in
  let q := fdiv z (EOL_THRESHOLD - k) w in
  n <- py_int (py_max0 (fsub q (inject_Z cur))) ;;
  Returned {| m := w; c := k; predicted_end_cycle := q;
              remaining_cycles := n |}.
Proof. reflexivity. Qed.

Lemma estimate_cons z (a : HealthRow) (l : list HealthRow) :
  estimate z (a :: l) =
  let f := {| current_cycle := cycle (last l a);
              latest_capacity := Capacity (last l a);
              start_capacity := Capacity a;
              soh := fmul (fdiv false (Capacity (last l a)) (Capacity a)) 100 |} in
  let w := coef_ (trend (a :: l)) in
  let k := intercept_ (trend (a :: l)) in
  let q := fdiv z (EOL_THRESHOLD - k) w in
  n <- py_int (py_max0 (fsub q (inject_Z (cycle (last l a))))) ;;
  Returned (f, {| m := w; c := k; predicted_end_cycle := q;
                  remaining_cycles := n |}).
Proof.
  unfold estimate. rewrite data_filtering_cons. cbn [bind current_cycle].
  rewrite prediction_engine_cons. cbn zeta.
  destruct (py_int _); reflexivity.
Qed.

Lemma fdiv_nonzero z (a b : Q) : ~ b == 0 -> fdiv z a b = Fin (a / b).
Proof.
  intros Hb. unfold fdiv.
  destruct (Qeq_bool b 0) eqn:E; [|reflexivity].
  apply Qeq_bool_iff in E. contradiction.
Qed.

Lemma fdiv_zero z (a b : Q) :
  b == 0 -> fdiv z a b = PInf \/ fdiv z a b = NInf \/ fdiv z a b = NaN.
Proof.
  intros Hb. unfold fdiv.
  apply Qeq_bool_iff in Hb. rewrite Hb.
  destruct (Qeq_bool a 0); [|destruct (xorb _ _)]; auto.
Qed.

(** The builtin [max] agrees with the mathematical maximum on finite
    values. *)
Lemma py_max0_Fin (d : Q) : py_max0 (Fin d) = Fin (Qmax 0 d).
Proof.
  unfold py_max0, fgt0, Qmax, GenericMinMax.gmax.
  destruct (Qle_bool d 0) eqn:E; cbn [negb].
  - apply Qle_bool_iff in E.
    destruct (0 ?= d) eqn:C; try reflexivity.
    rewrite <- Qlt_alt in C. lra.
  - destruct (0 ?= d) eqn:C; try reflexivity.
    + apply Qeq_alt in C.
      assert (Qle_bool d 0 = true) by (apply Qle_bool_iff; lra). congruence.
    + rewrite <- Qgt_alt in C.
      assert (Qle_bool d 0 = true) by (apply Qle_bool_iff; lra). congruence.
Qed.

Lemma Qmax0_nonneg (d : Q) : 0 <= Qmax 0 d.
Proof. apply Q.le_max_l. Qed.

Lemma Qtrunc_nonneg (q : Q) : 0 <= q -> (0 <= Qtrunc q)%Z.
Proof.
  intros Hq. unfold Qtrunc. apply Z.quot_pos; [|lia].
  unfold Qle in Hq; simpl in Hq. lia.
Qed.

(** On a non-negative value truncation toward zero is the floor. *)
Lemma Qtrunc_bracket (q : Q) :
  0 <= q -> inject_Z (Qtrunc q) <= q < inject_Z (Qtrunc q) + 1.
Proof.
  intros Hq.
  assert (E : Qtrunc q = Qfloor q).
  { unfold Qtrunc, Qfloor. destruct q as [n d]; simpl.
    apply Z.quot_div_nonneg; [|lia].
    unfold Qle in Hq; simpl in Hq. lia. }
  rewrite E. split.
  - apply Qfloor_le.
  - pose proof (Qlt_floor q) as H.
    rewrite inject_Z_plus in H. exact H.
Qed.

Lemma py_int_max0_nonneg (x : float64) (n : Z) :
  py_int (py_max0 x) = Returned n -> (0 <= n)%Z.
Proof.
  destruct x as [d| | |].
  - rewrite py_max0_Fin. cbn [py_int]. intros [= <-].
    apply Qtrunc_nonneg, Qmax0_nonneg.
  - discriminate.
  - cbn. intros [= <-]. reflexivity.
  - cbn. intros [= <-]. reflexivity.
Qed.

Lemma has_column_false (name : string) (columns : list string) :
  ~ In name columns -> has_column name columns = false.
Proof.
  intros H. unfold has_column.
  destruct (existsb (String.eqb name) columns) eqn:E; [|reflexivity].
  apply existsb_exists in E. destruct E as (x & Hx & Heq).
  apply String.eqb_eq in Heq. subst. contradiction.
Qed.

(** ** Histories *)

Lemma StronglySorted_conj {A : Type} (R1 R2 : A -> A -> Prop) (l : list A) :
  StronglySorted R1 l -> StronglySorted R2 l ->
  StronglySorted (fun a b => R1 a b /\ R2 a b) l.
Proof.
  induction l as [|a l IH]; intros H1 H2.
  - constructor.
  - inversion H1 as [|? ? S1 F1]; inversion H2 as [|? ? S2 F2]; subst.
    constructor; [auto|].
    rewrite Forall_forall in *. intros b Hb. split; auto.
Qed.

Lemma StronglySorted_weaken {A : Type} (R1 R2 : A -> A -> Prop) (l : list A) :
  (forall a b, R1 a b -> R2 a b) ->
  StronglySorted R1 l -> StronglySorted R2 l.
Proof.
  intros Himp. induction 1 as [|a l S IH F]; constructor; auto.
  rewrite Forall_forall in *. auto.
Qed.

Lemma numbered_from_sorted (s : nat) (h : list HealthRow) :
  map cycle h = map Z.of_nat (seq s (List.length h)) ->
  StronglySorted (fun a b => (cycle a < cycle b)%Z) h.
Proof.
  revert s. induction h as [|a h IH]; intros s H.
  - constructor.
  - cbn in H. injection H as Ha Hh.
    constructor; [exact (IH (S s) Hh)|].
    rewrite Forall_forall. intros b Hb.
    apply (in_map cycle) in Hb. rewrite Hh in Hb.
    apply in_map_iff in Hb. destruct Hb as (k & Hk & Hin).
    apply in_seq in Hin. lia.
Qed.

Lemma well_numbered_sorted (h : list HealthRow) :
  well_numbered h -> StronglySorted (fun a b => (cycle a < cycle b)%Z) h.
Proof. apply numbered_from_sorted. Qed.

Lemma strictly_decreasing_strongly (h : list HealthRow) :
  strictly_decreasing h ->
  StronglySorted (fun a b => Capacity b < Capacity a) h.
Proof.
  apply Sorted_StronglySorted. intros x y z Hxy Hyz. lra.
Qed.

Lemma wears_strongly (h : list HealthRow) :
  well_numbered h -> strictly_decreasing h -> StronglySorted wears h.
Proof.
  intros Hn Hd. apply StronglySorted_conj.
  - now apply well_numbered_sorted.
  - now apply strictly_decreasing_strongly.
Qed.

(** The current cycle is the largest of the history. *)
Lemma last_cycle_max (a : HealthRow) (l : list HealthRow) :
  StronglySorted (fun a b => (cycle a < cycle b)%Z) (a :: l) ->
  forall r, In r (a :: l) -> (cycle r <= cycle (last l a))%Z.
Proof.
  revert a. induction l as [|b l IH]; intros a Hs r Hr.
  - destruct Hr as [<-|[]]. cbn. lia.
  - inversion Hs as [|? ? Hs' Hall]; subst.
    rewrite last_cons.
    destruct Hr as [<-|Hr].
    + rewrite Forall_forall in Hall.
      assert (cycle a < cycle b)%Z by (apply Hall; simpl; auto).
      specialize (IH b Hs' b (or_introl eq_refl)). lia.
    + exact (IH b Hs' r Hr).
Qed.

Lemma trend_line (h : list HealthRow) :
  trend h = lstsq_line (map cyc h) (map Capacity h).
Proof. reflexivity. Qed.

(** A falling history has a negative trend. *)
Lemma trend_falls (a b : HealthRow) (l : list HealthRow) :
  StronglySorted wears (a :: b :: l) -> coef_ (trend (a :: b :: l)) < 0.
Proof.
  intros Hs. rewrite trend_line. apply coef_neg.
  revert Hs. apply StronglySorted_weaken.
  intros x y [Hc Hq]. split; [|exact Hq].
  unfold cyc. now rewrite <- Zlt_Qlt.
Qed.

(** One value in the cycle column gives a zero slope. *)
Lemma trend_constant_cycle (a : HealthRow) (l : list HealthRow) :
  (forall r, In r l -> cycle r = cycle a) -> coef_ (trend (a :: l)) = 0.
Proof.
  intros Hc. rewrite trend_line.
  destruct (coef_zero_or_ratio cyc Capacity (a :: l)) as [[_ E]|[Hne _]];
    [exact E|].
  exfalso. apply Hne.
  assert (Hall : forall r, In r (a :: l) -> cyc r == cyc a).
  { intros r [<-|Hr]; [reflexivity|]. unfold cyc. now rewrite (Hc r Hr). }
  assert (Hm : mean (map cyc (a :: l)) == cyc a).
  { pose proof (count_mean cyc (a :: l)) as Hcm.
    rewrite (sum_over_ext_in cyc (fun _ => cyc a) _ Hall) in Hcm.
    rewrite sum_over_const in Hcm.
    pose proof (count_of_pos a l). nra. }
  rewrite (sum_over_ext_in _ (fun _ => 0)).
  - rewrite sum_over_const. ring.
  - intros r Hr. rewrite (Hall r Hr), Hm. ring.
Qed.

(** ** Ingestion *)

Lemma discharge_rows_fst (df : list MetaRow) :
  map fst (discharge_rows df) = filter kept df.
Proof.
  induction df as [|r df IH]; [reflexivity|].
  cbn [discharge_rows filter]. unfold kept.
  destruct (String.eqb (type r) "discharge"); cbn [andb]; [|exact IH].
  destruct (to_numeric (raw_Capacity r)); cbn [map fst]; now rewrite ?IH.
Qed.

Lemma discharge_rows_In (df : list MetaRow) (r : MetaRow) (q : Q) :
  In (r, q) (discharge_rows df) ->
  In r df /\ type r = "discharge"%string
  /\ to_numeric (raw_Capacity r) = Some q.
Proof.
  induction df as [|r' df IH]; [intros []|].
  cbn [discharge_rows].
  destruct (String.eqb (type r') "discharge") eqn:Et.
  - destruct (to_numeric (raw_Capacity r')) as [q'|] eqn:Ec.
    + intros [[= <- <-]|Hin].
      * apply String.eqb_eq in Et. simpl; auto.
      * destruct (IH Hin) as (? & ? & ?). simpl; auto.
    + intros Hin. destruct (IH Hin) as (? & ? & ?). simpl; auto.
  - intros Hin. destruct (IH Hin) as (? & ? & ?). simpl; auto.
Qed.

Lemma compare_refl (s : string) : String_as_OT.compare s s = Eq.
Proof.
  destruct (String_as_OT.compare_spec s s) as [_|H|H]; [reflexivity| |];
    exfalso; exact (StrictOrder_Irreflexive s H).
Qed.

Lemma key_le_iff (a b : MetaRow) :
  key_le a b <->
  String_as_OT.lt (battery_id a) (battery_id b)
  \/ (battery_id a = battery_id b /\ (test_id a <= test_id b)%Z).
Proof.
  unfold key_le, key_leb.
  destruct (String_as_OT.compare_spec (battery_id a) (battery_id b))
    as [He|Hl|Hg].
  - rewrite Z.leb_le. split; [auto|].
    intros [Hl|[_ H]]; [|exact H].
    rewrite He in Hl. exfalso. exact (StrictOrder_Irreflexive _ Hl).
  - split; auto.
  - split; [discriminate|].
    intros [Hl|[He _]]; exfalso.
    + exact (StrictOrder_Irreflexive _ (StrictOrder_Transitive _ _ _ Hl Hg)).
    + rewrite He in Hg. exact (StrictOrder_Irreflexive _ Hg).
Qed.

Lemma key_le_trans (a b d : MetaRow) : key_le a b -> key_le b d -> key_le a d.
Proof.
  rewrite !key_le_iff. intros [H1|[E1 L1]] [H2|[E2 L2]].
  - left. exact (StrictOrder_Transitive _ _ _ H1 H2).
  - left. now rewrite <- E2.
  - left. now rewrite E1.
  - right. split; [congruence | lia].
Qed.

Lemma key_le_total (a b : MetaRow) : key_leb a b = false -> key_le b a.
Proof.
  intros H. apply key_le_iff. unfold key_leb in H.
  destruct (String_as_OT.compare_spec (battery_id a) (battery_id b))
    as [He|Hl|Hg].
  - right. split; [auto|]. apply Z.leb_gt in H. lia.
  - discriminate.
  - left. exact Hg.
Qed.

Lemma insert_row_perm (x : MetaRow * Q) (l : list (MetaRow * Q)) :
  Permutation (x :: l) (insert_row x l).
Proof.
  induction l as [|y l IH]; cbn [insert_row]; [reflexivity|].
  destruct (key_leb (fst x) (fst y)); [reflexivity|].
  rewrite perm_swap. now constructor.
Qed.

Lemma sort_values_perm (l : list (MetaRow * Q)) :
  Permutation l (sort_values l).
Proof.
  induction l as [|x l IH]; cbn [sort_values]; [reflexivity|].
  rewrite <- insert_row_perm. now constructor.
Qed.

Lemma insert_row_sorted (x : MetaRow * Q) (l : list (MetaRow * Q)) :
  StronglySorted (fun a b => key_le (fst a) (fst b)) l ->
  StronglySorted (fun a b => key_le (fst a) (fst b)) (insert_row x l).
Proof.
  induction 1 as [|y l Hs IH Hall]; cbn [insert_row].
  - repeat constructor.
  - destruct (key_leb (fst x) (fst y)) eqn:E.
    + constructor; [now constructor|].
      constructor; [exact E|].
      rewrite Forall_forall in *. intros z Hz.
      apply (key_le_trans _ (fst y)); [exact E | now apply Hall].
    + constructor; [exact IH|].
      rewrite Forall_forall in *. intros z Hz.
      apply (Permutation_in _ (Permutation_sym (insert_row_perm x l))) in Hz.
      destruct Hz as [<-|Hz]; [now apply key_le_total | now apply Hall].
Qed.

Lemma sort_values_sorted (l : list (MetaRow * Q)) :
  StronglySorted (fun a b => key_le (fst a) (fst b)) (sort_values l).
Proof.
  induction l as [|x l IH]; cbn [sort_values].
  - constructor.
  - now apply insert_row_sorted.
Qed.

Lemma add_cycle_rows (above : list string) (l : list (MetaRow * Q)) :
  map (fun r => (meta r, Capacity r)) (add_cycle above l) = l.
Proof.
  revert above. induction l as [|[r q] l IH]; intros above; cbn.
  - reflexivity.
  - now rewrite IH.
Qed.

Lemma add_cycle_meta (above : list string) (l : list (MetaRow * Q)) :
  map meta (add_cycle above l) = map fst l.
Proof.
  rewrite <- (add_cycle_rows above l) at 2. now rewrite map_map.
Qed.

(** The rows of one battery are numbered from one more than the count of
    its rows above. *)
Lemma select_battery_cycles (id : string) (above : list string)
      (l : list (MetaRow * Q)) :
  map cycle (select_battery (add_cycle above l) id) =
  map Z.of_nat
    (seq (S (count_occ string_dec above id))
         (List.length (select_battery (add_cycle above l) id))).
Proof.
  revert above. induction l as [|[r q] l IH]; intros above.
  - reflexivity.
  - cbn [add_cycle select_battery filter meta].
    destruct (String.eqb (battery_id r) id) eqn:E.
    + apply String.eqb_eq in E. subst id.
      cbn [map List.length seq cycle]. f_equal; [lia|].
      specialize (IH (battery_id r :: above)).
      unfold select_battery in IH. rewrite IH.
      rewrite count_occ_cons_eq by reflexivity. reflexivity.
    + apply String.eqb_neq in E.
      specialize (IH (battery_id r :: above)).
      unfold select_battery in IH. rewrite IH.
      rewrite count_occ_cons_neq by exact E. reflexivity.
Qed.

Lemma map_filter_comm {A B : Type} (f : A -> B) (p : B -> bool) (l : list A) :
  map f (filter (fun a => p (f a)) l) = filter p (map f l).
Proof.
  induction l as [|a l IH]; cbn; [reflexivity|].
  destruct (p (f a)); cbn; now rewrite IH.
Qed.

Lemma StronglySorted_filter {A : Type} (R : A -> A -> Prop) (p : A -> bool)
      (l : list A) :
  StronglySorted R l -> StronglySorted R (filter p l).
Proof.
  induction 1 as [|a l Hs IH Hall]; cbn; [constructor|].
  destruct (p a); [|exact IH].
  constructor; [exact IH|].
  rewrite Forall_forall in *. intros b Hb.
  apply filter_In in Hb. now apply Hall.
Qed.

Lemma StronglySorted_map {A B : Type} (R : B -> B -> Prop) (f : A -> B)
      (l : list A) :
  StronglySorted R (map f l) <-> StronglySorted (fun a b => R (f a) (f b)) l.
Proof.
  induction l as [|a l IH]; cbn.
  - split; constructor.
  - split; intros H; inversion H as [|? ? Hs Hall]; subst;
      (constructor; [now apply IH|]).
    + rewrite Forall_forall in *. intros b Hb. apply Hall. now apply in_map.
    + rewrite Forall_forall in *. intros b Hb.
      apply in_map_iff in Hb. destruct Hb as (x & <- & Hx). now apply Hall.
Qed.

(** [health_df] is ordered by battery, then test. *)
Lemma health_df_sorted (df : list MetaRow) :
  StronglySorted (fun a b => key_le (meta a) (meta b))
                 (snd (load_metadata df)).
Proof.
  cbn [load_metadata snd].
  apply StronglySorted_map. rewrite add_cycle_meta.
  apply StronglySorted_map. apply sort_values_sorted.
Qed.

(** With a slope that is not zero the whole block is finite arithmetic. *)
Lemma estimate_nonzero_slope z (a : HealthRow) (l : list HealthRow) :
  ~ coef_ (trend (a :: l)) == 0 ->
  exists f p, estimate z (a :: l) = Returned (f, p) /\
    predicted_end_cycle p = Fin ((EOL_THRESHOLD - c p) / m p) /\
    remaining_cycles p =
    Qtrunc (Qmax 0 ((EOL_THRESHOLD - c p) / m p
                    - inject_Z (current_cycle f))).
Proof.
  intros Hm. rewrite estimate_cons. cbn zeta.
  rewrite (fdiv_nonzero z _ _ Hm).
  cbn [fsub]. rewrite py_max0_Fin. cbn [py_int bind].
  eexists _, _. split; [reflexivity|].
  cbn [m c predicted_end_cycle remaining_cycles current_cycle].
  split; reflexivity.
Qed.

(** ** From the estimator to the alert *)

Lemma forecast_finite (model : LinearRegression) (q : Q) :
  forecast model (Fin q) =
  Returned [(Fin 1, Fin (1 * coef_ model + intercept_ model));
            (Fin (q + 20), Fin ((q + 20) * coef_ model + intercept_ model))].
Proof. reflexivity. Qed.

Lemma forecast_not_finite (model : LinearRegression) (x : float64) :
  is_finite x = false -> forecast model x = Raised ValueError.
Proof. destruct x; [discriminate| | |]; reflexivity. Qed.

(** With a finite end cycle the forecast is drawn and the alert shown. *)
Lemma page_alert_finite z (h : list HealthRow) f p (q : Q) :
  estimate z h = Returned (f, p) -> predicted_end_cycle p = Fin q ->
  page_alert z h = Returned (classify (remaining_cycles p)).
Proof.
  intros He Hq. unfold page_alert. rewrite He. cbn [bind snd].
  rewrite Hq, forecast_finite. reflexivity.
Qed.

(** With an infinite or undefined end cycle [model.predict] stops the
    script before the alert. *)
Lemma page_alert_not_finite z (h : list HealthRow) f p :
  estimate z h = Returned (f, p) ->
  is_finite (predicted_end_cycle p) = false ->
  page_alert z h = Raised ValueError.
Proof.
  intros He Hq. unfold page_alert. rewrite He. cbn [bind snd].
  now rewrite (forecast_not_finite _ _ Hq).
Qed.

Lemma page_alert_Returned z (h : list HealthRow) (a : alert) :
  page_alert z h = Returned a ->
  exists f p q, estimate z h = Returned (f, p) /\
    predicted_end_cycle p = Fin q /\ a = classify (remaining_cycles p).
Proof.
  unfold page_alert.
  destruct (estimate z h) as [[f p]|e] eqn:He; [|discriminate].
  cbn [bind snd].
  destruct (predicted_end_cycle p) as [q| | |] eqn:Hq;
    try (rewrite forecast_not_finite by reflexivity; discriminate).
  rewrite forecast_finite. cbn [bind]. intros [= <-].
  now exists f, p, q.
Qed.

(** * The claims *)

Ltac qdecide :=
  vm_compute;
  first [ reflexivity | discriminate | intro; discriminate ].

(** C1.  For a non-empty history, whenever the estimator returns, [m] and
    [c] are the fitted slope and intercept, [predicted_end_cycle] is the
    quotient [(EOL_THRESHOLD - c) / m] and [remaining_cycles] is not
    negative.  When the slope is not zero the estimator does return, the
    quotient is the rational [(EOL_THRESHOLD - c) / m], and
    [remaining_cycles] is [max (0, predicted_end_cycle - current_cycle)]
    truncated toward zero: the clamp comes first, so the truncation is the
    floor of a non-negative number. *)
Theorem remaining_cycles_formula (z : bool) (h : list HealthRow) :
  h <> [] ->
  (forall f p, estimate z h = Returned (f, p) ->
     m p = coef_ (trend h) /\ c p = intercept_ (trend h) /\
     predicted_end_cycle p = fdiv z (EOL_THRESHOLD - c p) (m p) /\
     (0 <= remaining_cycles p)%Z) /\
  (~ coef_ (trend h) == 0 ->
   exists f p, estimate z h = Returned (f, p) /\
     predicted_end_cycle p = Fin ((EOL_THRESHOLD - c p) / m p) /\
     let d := (EOL_THRESHOLD - c p) / m p - inject_Z (current_cycle f) in
     remaining_cycles p = Qtrunc (Qmax 0 d) /\
     inject_Z (remaining_cycles p) <= Qmax 0 d
       < inject_Z (remaining_cycles p) + 1).
Proof.
  intros Hne. destruct h as [|a l]; [contradiction|]. clear Hne.
  rewrite estimate_cons. cbn zeta. split.
  - intros f p H.
    destruct (py_int _) as [n|e] eqn:E; [|discriminate].
    cbn [bind] in H. injection H as <- <-. cbn [m c predicted_end_cycle
                                                  remaining_cycles].
    repeat split. exact (py_int_max0_nonneg _ _ E).
  - intros Hm.
    destruct (estimate_nonzero_slope z a l Hm) as (f & p & He & Hq & Hr).
    rewrite estimate_cons in He. cbn zeta in He.
    exists f, p. split; [exact He|]. split; [exact Hq|].
    cbn zeta. split; [exact Hr|].
    rewrite Hr. apply Qtrunc_bracket, Qmax0_nonneg.
Qed.

Lemma remaining_cycles_formula_witness :
  scenario_decline <> [] /\
  ~ coef_ (trend scenario_decline) == 0 /\
  exists f p, estimate false scenario_decline = Returned (f, p) /\
    inject_Z (remaining_cycles p)
    <= Qmax 0 ((EOL_THRESHOLD - c p) / m p - inject_Z (current_cycle f)).
Proof.
  assert (Hne : scenario_decline <> []) by discriminate.
  assert (Hm : ~ coef_ (trend scenario_decline) == 0) by qdecide.
  split; [exact Hne|]. split; [exact Hm|].
  destruct (remaining_cycles_formula false scenario_decline Hne) as [_ Hr].
  destruct (Hr Hm) as (f & p & He & _ & _ & Hb & _).
  exists f, p. split; [exact He | exact Hb].
Defined.

(** C2.  On a non-empty history the filtering block returns; the baseline
    is the capacity of the first record and the latest capacity that of
    the last; [soh] is [(latest_capacity / start_capacity) * 100]; and
    when the two capacities are equal and not zero, [soh] is 100.  The
    estimator passes these values on unchanged. *)
Theorem soh_formula (a : HealthRow) (l : list HealthRow) :
  exists f, data_filtering (a :: l) = Returned f /\
    start_capacity f = Capacity a /\
    latest_capacity f = Capacity (last l a) /\
    soh f = fmul (fdiv false (latest_capacity f) (start_capacity f)) 100 /\
    (~ start_capacity f == 0 ->
     soh f = Fin (latest_capacity f / start_capacity f * 100)) /\
    (latest_capacity f == start_capacity f -> ~ start_capacity f == 0 ->
     exists q, soh f = Fin q /\ q == 100) /\
    (forall z f' p, estimate z (a :: l) = Returned (f', p) -> f' = f).
Proof.
  eexists. split; [apply data_filtering_cons|].
  cbn [start_capacity latest_capacity soh].
  repeat split.
  - intros Hs. now rewrite (fdiv_nonzero false _ _ Hs).
  - intros He Hs. rewrite (fdiv_nonzero false _ _ Hs). cbn [fmul].
    eexists. split; [reflexivity|]. rewrite He. field. exact Hs.
  - intros z f' p. rewrite estimate_cons. cbn zeta.
    destruct (py_int _); cbn [bind]; [|discriminate].
    now intros [= <- _].
Qed.

Lemma soh_formula_witness :
  exists f, data_filtering scenario_flat = Returned f /\
    latest_capacity f == start_capacity f /\ ~ start_capacity f == 0 /\
    exists q, soh f = Fin q /\ q == 100.
Proof.
  destruct (soh_formula (row "B0005" 1 2 1) (history_from 2 [2; 2]))
    as (f & Hf & Hs & Hl & _ & _ & H100 & _).
  exists f.
  assert (He : latest_capacity f == start_capacity f)
    by (rewrite Hs, Hl; reflexivity).
  assert (Hn : ~ start_capacity f == 0) by (rewrite Hs; qdecide).
  split; [exact Hf|]. split; [exact He|]. split; [exact Hn|].
  exact (H100 He Hn).
Defined.

(** C5.  The alert is a threshold on [remaining_cycles] alone: HEALTHY
    from 15 cycles up, URGENT below; 15 gives HEALTHY and 14 gives URGENT.
    Whenever the page shows an alert it is the one of the estimator's
    [remaining_cycles], and it shows one whenever the estimator returns
    with a finite predicted end cycle. *)
Theorem classify_threshold :
  (forall n : Z, classify n = HEALTHY <-> (15 <= n)%Z) /\
  (forall n : Z, classify n = URGENT <-> (n < 15)%Z) /\
  classify 15 = HEALTHY /\ classify 14 = URGENT /\
  (forall z h a, page_alert z h = Returned a ->
     exists f p, estimate z h = Returned (f, p) /\
       a = classify (remaining_cycles p)) /\
  (forall z h f p q, estimate z h = Returned (f, p) ->
     predicted_end_cycle p = Fin q ->
     page_alert z h = Returned (classify (remaining_cycles p))).
Proof.
  split; [|split; [|split; [|split; [|split]]]].
  - intros n. unfold classify.
    destruct (Z.ltb_spec n 15); split; intros; try discriminate;
      try reflexivity; lia.
  - intros n. unfold classify.
    destruct (Z.ltb_spec n 15); split; intros; try discriminate;
      try reflexivity; lia.
  - reflexivity.
  - reflexivity.
  - intros z h a H.
    destruct (page_alert_Returned z h a H) as (f & p & q & He & _ & Ha).
    now exists f, p.
  - intros z h f p q He Hq. exact (page_alert_finite z h f p q He Hq).
Qed.

(** C9.  When the sensor file has no column ['Temperature_measured'], the
    temperature chart plots the first column of the file, whatever it
    holds; when ['Voltage_measured'] is absent as well, the two charts
    plot the same column. *)
Theorem t_col_fallback (columns : list string) :
  ~ In "Temperature_measured"%string columns ->
  t_col columns = iloc_first columns /\
  (forall first rest, columns = first :: rest ->
     t_col columns = Returned first) /\
  (~ In "Voltage_measured"%string columns -> v_col columns = t_col columns).
Proof.
  intros Ht. unfold t_col, v_col.
  rewrite (has_column_false _ _ Ht). repeat split.
  - intros first rest ->. reflexivity.
  - intros Hv. now rewrite (has_column_false _ _ Hv).
Qed.

Lemma t_col_fallback_witness :
  ~ In "Temperature_measured"%string
       ["Voltage_load"; "Current_measured"; "Time"]%string /\
  t_col ["Voltage_load"; "Current_measured"; "Time"]%string
  = Returned "Voltage_load"%string /\
  v_col ["Voltage_load"; "Current_measured"; "Time"]%string
  = t_col ["Voltage_load"; "Current_measured"; "Time"]%string.
Proof.
  assert (Ht : ~ In "Temperature_measured"%string
                    ["Voltage_load"; "Current_measured"; "Time"]%string).
  { cbn. intros [H|[H|[H|[]]]]; discriminate H. }
  assert (Hv : ~ In "Voltage_measured"%string
                    ["Voltage_load"; "Current_measured"; "Time"]%string).
  { cbn. intros [H|[H|[H|[]]]]; discriminate H. }
  destruct (t_col_fallback _ Ht) as (_ & Hfirst & Hsame).
  split; [exact Ht|].
  split; [exact (Hfirst _ _ eq_refl) | exact (Hsame Hv)].
Defined.

Lemma estimate_Returned z (h : list HealthRow) f p :
  estimate z h = Returned (f, p) ->
  data_filtering h = Returned f /\
  m p = coef_ (trend h) /\ c p = intercept_ (trend h) /\
  predicted_end_cycle p = fdiv z (EOL_THRESHOLD - c p) (m p) /\
  py_int (py_max0 (fsub (predicted_end_cycle p)
                        (inject_Z (current_cycle f))))
  = Returned (remaining_cycles p).
Proof.
  destruct h as [|a l]; [discriminate|].
  rewrite estimate_cons, data_filtering_cons. cbn zeta.
  destruct (py_int _) as [n|e] eqn:E; [|discriminate].
  cbn [bind]. intros [= <- <-].
  cbn [m c predicted_end_cycle remaining_cycles current_cycle].
  repeat split. exact E.
Qed.

(** C4.  The line the estimator uses is the least-squares line of the
    whole history: its [m] and [c] are the slope and intercept fitted to
    every record, and no other line has a smaller sum of squared
    residuals.  On the history (1, 2.0), (2, 1.8), (3, 1.6) the slope is
    -0.2, the intercept 2.2, the predicted end cycle 4, the remaining
    cycles 1 and the alert URGENT. *)
Theorem trend_least_squares :
  (forall h w' k',
     sse (cycles_of h) (capacities_of h)
         (coef_ (trend h)) (intercept_ (trend h))
     <= sse (cycles_of h) (capacities_of h) w' k') /\
  (forall z h f p, estimate z h = Returned (f, p) ->
     m p = coef_ (trend h) /\ c p = intercept_ (trend h) /\
     List.length (cycles_of h) = List.length h /\
     List.length (capacities_of h) = List.length h) /\
  (forall z, exists f p q,
     estimate z scenario_decline = Returned (f, p) /\
     m p == - (2 # 10) /\ c p == 22 # 10 /\
     predicted_end_cycle p = Fin q /\ q == 4 /\
     current_cycle f = 3%Z /\ remaining_cycles p = 1%Z /\
     page_alert z scenario_decline = Returned URGENT).
Proof.
  split; [|split].
  - intros h w' k'. rewrite trend_line.
    apply (lstsq_line_minimal cyc Capacity).
  - intros z h f p H.
    destruct (estimate_Returned _ _ _ _ H) as (_ & Hm & Hc & _).
    unfold cycles_of, capacities_of. rewrite !length_map. auto.
  - intros z.
    assert (Hz : estimate z scenario_decline = estimate false scenario_decline)
      by (destruct z; reflexivity).
    assert (Ha : page_alert z scenario_decline = Returned URGENT)
      by (destruct z; vm_compute; reflexivity).
    rewrite Hz, Ha.
    eexists _, _, _. split; [vm_compute; reflexivity|].
    cbn [m c predicted_end_cycle current_cycle remaining_cycles].
    split; [qdecide|]. split; [qdecide|].
    split; [reflexivity|]. split; [qdecide|].
    repeat split.
Qed.

(** ** A zero slope *)

Lemma fmul_100_not_finite (x : float64) :
  x = PInf \/ x = NInf \/ x = NaN ->
  fmul x 100 = PInf \/ fmul x 100 = NInf \/ fmul x 100 = NaN.
Proof. intros [ -> | [ -> | -> ] ]; cbn; auto. Qed.

(** Where the quotient is [+inf], [int] refuses it and the script stops. *)
Lemma zero_slope_overflow z (a : HealthRow) (l : list HealthRow) :
  fdiv z (EOL_THRESHOLD - intercept_ (trend (a :: l)))
         (coef_ (trend (a :: l))) = PInf ->
  estimate z (a :: l) = Raised OverflowError.
Proof.
  intros Hq. rewrite estimate_cons. cbn zeta. rewrite Hq. reflexivity.
Qed.

(** Whichever zero the solver returns, some flat history stops the
    script: below the threshold with a positive zero, above it with a
    negative one. *)
Example flat_histories_overflow :
  estimate false scenario_flat_low = Raised OverflowError /\
  estimate true scenario_flat = Raised OverflowError.
Proof. split; vm_compute; reflexivity. Qed.

(** C3, on the flat history (1, 2.0), (2, 2.0), (3, 2.0): the slope is 0
    and the estimator divides by it all the same.  With a positive zero
    the quotient is [-inf] and the remaining cycles are the number 0,
    after which [model.predict] stops the script on the infinite forecast
    end; with a negative zero the quotient is [+inf] and [int] stops the
    script with OverflowError.  Nothing is reported as unbounded. *)
Lemma flat_history_is_divided :
  coef_ (trend scenario_flat) == 0 /\
  (exists f p, estimate false scenario_flat = Returned (f, p) /\
     predicted_end_cycle p = NInf /\ remaining_cycles p = 0%Z) /\
  page_alert false scenario_flat = Raised ValueError /\
  estimate true scenario_flat = Raised OverflowError.
Proof.
  split; [qdecide|]. split; [|split; vm_compute; reflexivity].
  eexists _, _. split; [vm_compute; reflexivity|]. split; reflexivity.
Qed.

(** C3, as the code has it.  A history whose cycle column holds one value
    (a single record, for one) has slope 0.  For a non-empty history
    with slope 0 the estimator still divides by [m]: the quotient is an
    infinity or a NaN, and when it is not [+inf] the estimator returns 0
    remaining cycles. *)
Theorem zero_slope_is_divided (z : bool) (a : HealthRow) (l : list HealthRow) :
  ((forall r, In r l -> cycle r = cycle a) -> coef_ (trend (a :: l)) == 0) /\
  (coef_ (trend (a :: l)) == 0 ->
   let q := fdiv z (EOL_THRESHOLD - intercept_ (trend (a :: l)))
                   (coef_ (trend (a :: l))) in
   (q = PInf \/ q = NInf \/ q = NaN) /\
   (q <> PInf ->
    exists f p, estimate z (a :: l) = Returned (f, p) /\
      predicted_end_cycle p = q /\ remaining_cycles p = 0%Z)).
Proof.
  split.
  - intros Hc. now rewrite (trend_constant_cycle a l Hc).
  - intros Hm q.
    assert (Hq : q = PInf \/ q = NInf \/ q = NaN) by (apply fdiv_zero, Hm).
    split; [exact Hq|]. intros Hp.
    rewrite estimate_cons. cbn zeta. fold q.
    destruct Hq as [Hq|[Hq|Hq]]; [contradiction| |];
      rewrite Hq; cbn [fsub py_max0 fgt0 py_int bind];
      eexists _, _; (split; [reflexivity|]);
      cbn [predicted_end_cycle remaining_cycles]; split; reflexivity.
Qed.

Lemma zero_slope_is_divided_witness :
  coef_ (trend scenario_flat) == 0 /\
  exists f p, estimate false scenario_flat = Returned (f, p) /\
    remaining_cycles p = 0%Z.
Proof.
  assert (Hm : coef_ (trend scenario_flat) == 0) by qdecide.
  split; [exact Hm|].
  destruct (zero_slope_is_divided false (row "B0005" 1 2 1)
              (history_from 2 [2; 2])) as [_ H].
  destruct (H Hm) as [_ Hr].
  assert (Hp : fdiv false
                 (EOL_THRESHOLD
                  - intercept_ (trend (row "B0005" 1 2 1
                                       :: history_from 2 [2; 2])))
                 (coef_ (trend (row "B0005" 1 2 1 :: history_from 2 [2; 2])))
               <> PInf) by (vm_compute; discriminate).
  destruct (Hr Hp) as (f & p & He & _ & Hz).
  exists f, p. split; [exact He | exact Hz].
Defined.

(** C8, on the history (1, 0.0), (2, 1.0), (3, 3.0): the baseline is zero
    and the estimator returns; the state of health is [+inf]. *)
Lemma zero_baseline_is_estimated :
  (exists f p, estimate false scenario_zero_baseline = Returned (f, p) /\
     start_capacity f == 0 /\ soh f = PInf) /\
  (exists f p, estimate true scenario_zero_baseline = Returned (f, p) /\
     start_capacity f == 0 /\ soh f = PInf).
Proof.
  split; eexists _, _; (split; [vm_compute; reflexivity|]);
    split; [qdecide | reflexivity | qdecide | reflexivity].
Qed.

(** C8, as the code has it.  The estimator stops on a history of zero
    records, with IndexError, and the filtering block stops on no other
    history.  A zero baseline is not an error: the block returns, with an
    infinity or a NaN for [soh].  Every non-empty history whose slope is
    not zero is estimated without an exception. *)
Theorem estimate_failures (z : bool) :
  estimate z [] = Raised IndexError /\
  (forall h, raises (data_filtering h) <-> h = []) /\
  (forall a l, exists f, data_filtering (a :: l) = Returned f /\
     (start_capacity f == 0 ->
      soh f = PInf \/ soh f = NInf \/ soh f = NaN)) /\
  (forall a l, ~ coef_ (trend (a :: l)) == 0 ->
     exists f p, estimate z (a :: l) = Returned (f, p)).
Proof.
  split; [reflexivity|]. split; [|split].
  - intros h. split.
    + intros [e He]. destruct h as [|a l]; [reflexivity|].
      rewrite data_filtering_cons in He. discriminate.
    + intros ->. exists IndexError. reflexivity.
  - intros a l. eexists. split; [apply data_filtering_cons|].
    cbn [start_capacity soh]. intros Hs.
    apply fmul_100_not_finite, fdiv_zero, Hs.
  - intros a l Hm.
    destruct (estimate_nonzero_slope z a l Hm) as (f & p & He & _).
    now exists f, p.
Qed.

Lemma estimate_failures_witness :
  ~ coef_ (trend scenario_zero_baseline) == 0 /\
  exists f p, estimate false scenario_zero_baseline = Returned (f, p).
Proof.
  assert (Hm : ~ coef_ (trend scenario_zero_baseline) == 0) by qdecide.
  split; [exact Hm|].
  destruct (estimate_failures false) as (_ & _ & _ & H).
  exact (H (row "B0005" 1 0 1) (history_from 2 [1; 3]) Hm).
Defined.

(** C6.  A history of at least two records, numbered 1, 2, ..., whose
    capacity falls strictly from each record to the next, has a negative
    slope; the estimator returns, the predicted end cycle is a finite
    number and the remaining cycles are not negative. *)
Theorem falling_history_estimated (z : bool) (h : list HealthRow) :
  well_numbered h -> strictly_decreasing h -> (2 <= List.length h)%nat ->
  coef_ (trend h) < 0 /\
  exists f p, estimate z h = Returned (f, p) /\
    (exists q, predicted_end_cycle p = Fin q) /\
    (0 <= remaining_cycles p)%Z.
Proof.
  intros Hn Hd Hlen.
  destruct h as [|a [|b l]]; cbn in Hlen; try lia.
  pose proof (trend_falls a b l (wears_strongly _ Hn Hd)) as Hneg.
  split; [exact Hneg|].
  assert (Hm : ~ coef_ (trend (a :: b :: l)) == 0) by lra.
  destruct (estimate_nonzero_slope z a (b :: l) Hm) as (f & p & He & Hq & Hr).
  exists f, p. split; [exact He|]. split; [eexists; exact Hq|].
  rewrite Hr. apply Qtrunc_nonneg, Qmax0_nonneg.
Qed.

Lemma falling_history_estimated_witness :
  well_numbered scenario_decline /\ strictly_decreasing scenario_decline /\
  (2 <= List.length scenario_decline)%nat /\
  exists f p, estimate false scenario_decline = Returned (f, p) /\
    (0 <= remaining_cycles p)%Z.
Proof.
  assert (Hn : well_numbered scenario_decline) by reflexivity.
  assert (Hd : strictly_decreasing scenario_decline).
  { repeat constructor. }
  assert (Hl : (2 <= List.length scenario_decline)%nat) by (cbn; lia).
  split; [exact Hn|]. split; [exact Hd|]. split; [exact Hl|].
  destruct (falling_history_estimated false scenario_decline Hn Hd Hl)
    as (_ & f & p & He & _ & Hr).
  exists f, p. split; [exact He | exact Hr].
Defined.

(** C10.  A history numbered 1, 2, ..., with a strictly positive slope and
    every capacity strictly above [EOL_THRESHOLD] gets 0 remaining cycles
    and the alert URGENT: the rising line met the threshold in the past.
    (A positive slope already needs two distinct cycle values.) *)
Theorem rising_history_urgent (z : bool) (h : list HealthRow) :
  well_numbered h ->
  0 < coef_ (trend h) ->
  Forall (fun r => EOL_THRESHOLD < Capacity r) h ->
  (2 <= List.length h)%nat /\
  exists f p, estimate z h = Returned (f, p) /\
    remaining_cycles p = 0%Z /\
    page_alert z h = Returned URGENT.
Proof.
  intros Hn Hpos Hcap.
  destruct h as [|a l]; [vm_compute in Hpos; discriminate|].
  split.
  { destruct l as [|b l]; [|cbn; lia].
    rewrite (trend_constant_cycle a []) in Hpos by (intros r []). lra. }
  assert (Hm : ~ coef_ (trend (a :: l)) == 0) by lra.
  destruct (estimate_nonzero_slope z a l Hm) as (f & p & He & Hq & Hr).
  destruct (estimate_Returned _ _ _ _ He) as (Hf & Hmp & Hcp & _).
  rewrite data_filtering_cons in Hf. injection Hf as Hf.
  assert (Hd : (EOL_THRESHOLD - c p) / m p - inject_Z (current_cycle f) < 0).
  { rewrite Hmp, Hcp, <- Hf. cbn [current_cycle]. rewrite trend_line.
    apply (crossing_before cyc Capacity).
    - rewrite <- trend_line. exact Hpos.
    - rewrite Forall_forall in Hcap. exact Hcap.
    - intros r Hr'. unfold cyc. rewrite <- Zle_Qle.
      apply last_cycle_max; [|exact Hr'].
      now apply well_numbered_sorted. }
  assert (Hz : remaining_cycles p = 0%Z).
  { rewrite Hr.
    assert (E : Qmax 0 ((EOL_THRESHOLD - c p) / m p
                        - inject_Z (current_cycle f)) = 0).
    { unfold Qmax, GenericMinMax.gmax.
      destruct (0 ?= _) eqn:C; try reflexivity.
      rewrite <- Qlt_alt in C. lra. }
    rewrite E. reflexivity. }
  exists f, p. split; [exact He|]. split; [exact Hz|].
  rewrite (page_alert_finite z _ f p _ He Hq), Hz. reflexivity.
Qed.

Lemma rising_history_urgent_witness :
  well_numbered scenario_rising /\
  0 < coef_ (trend scenario_rising) /\
  Forall (fun r => EOL_THRESHOLD < Capacity r) scenario_rising /\
  exists f p, estimate false scenario_rising = Returned (f, p) /\
    remaining_cycles p = 0%Z /\
    page_alert false scenario_rising = Returned URGENT.
Proof.
  assert (Hn : well_numbered scenario_rising) by reflexivity.
  assert (Hp : 0 < coef_ (trend scenario_rising)) by qdecide.
  assert (Hc : Forall (fun r => EOL_THRESHOLD < Capacity r) scenario_rising).
  { repeat constructor. }
  split; [exact Hn|]. split; [exact Hp|]. split; [exact Hc|].
  destruct (rising_history_urgent false scenario_rising Hn Hp Hc) as [_ H].
  exact H.
Defined.

(** ** The rows of one battery *)

Lemma Permutation_filter' {A : Type} (p : A -> bool) (l l' : list A) :
  Permutation l l' -> Permutation (filter p l) (filter p l').
Proof.
  induction 1 as [|x l l' _ IH|x y l|l l' l'' _ IH1 _ IH2]; cbn.
  - constructor.
  - destruct (p x); [now constructor | exact IH].
  - destruct (p x), (p y); try reflexivity. apply perm_swap.
  - now rewrite IH1.
Qed.

(** Among rows ordered by battery and test, those of one battery are
    ordered by test. *)
Lemma select_battery_sorted (id : string) (l : list HealthRow) :
  StronglySorted (fun a b => key_le (meta a) (meta b)) l ->
  StronglySorted by_test_id (select_battery l id).
Proof.
  induction 1 as [|a l Hs IH Hall]; cbn; [constructor|].
  destruct (String.eqb (battery_id (meta a)) id) eqn:E; [|exact IH].
  constructor; [exact IH|].
  apply String.eqb_eq in E.
  rewrite Forall_forall in *. intros b Hb.
  apply filter_In in Hb. destruct Hb as [Hb Eb].
  apply String.eqb_eq in Eb.
  destruct (proj1 (key_le_iff _ _) (Hall b Hb)) as [Hlt|[_ Hle]].
  - rewrite E, Eb in Hlt. exfalso. exact (StrictOrder_Irreflexive _ Hlt).
  - exact Hle.
Qed.

Lemma health_df_rows (df : list MetaRow) (r : HealthRow) :
  In r (snd (load_metadata df)) ->
  In (meta r) df /\ type (meta r) = "discharge"%string
  /\ to_numeric (raw_Capacity (meta r)) = Some (Capacity r).
Proof.
  cbn [load_metadata snd]. intros Hr.
  apply (in_map (fun r => (meta r, Capacity r))) in Hr.
  rewrite add_cycle_rows in Hr.
  apply (Permutation_in _ (Permutation_sym (sort_values_perm _))) in Hr.
  now apply discharge_rows_In.
Qed.

Lemma health_df_perm (df : list MetaRow) :
  Permutation (map meta (snd (load_metadata df))) (filter kept df).
Proof.
  cbn [load_metadata snd].
  rewrite add_cycle_meta, <- discharge_rows_fst.
  apply Permutation_map, Permutation_sym, sort_values_perm.
Qed.

(** C7.  From the metadata table, [load_metadata] and the selection of a
    battery give a history in which every row is a row of the table of
    type ["discharge"], of that battery, carrying the number its
    [Capacity] cell coerces to; the kept rows are exactly the discharge
    rows with a valid [Capacity] (none lost, none defaulted); the table is
    ordered by battery and test, the history by test; and the cycles of
    the history count 1, 2, ..., N. *)
Theorem ingestion_contract (df : list MetaRow) (selected_id : string) :
  Forall (fun r => In (meta r) df /\
                   type (meta r) = "discharge"%string /\
                   to_numeric (raw_Capacity (meta r)) = Some (Capacity r) /\
                   battery_id (meta r) = selected_id)
         (b_history df selected_id) /\
  Permutation (map meta (snd (load_metadata df))) (filter kept df) /\
  Permutation (map meta (b_history df selected_id))
              (filter (fun r => String.eqb (battery_id r) selected_id)
                      (filter kept df)) /\
  StronglySorted (fun a b => key_le (meta a) (meta b))
                 (snd (load_metadata df)) /\
  StronglySorted by_test_id (b_history df selected_id) /\
  well_numbered (b_history df selected_id).
Proof.
  split; [|split; [|split; [|split; [|split]]]].
  - rewrite Forall_forall. intros r Hr.
    unfold b_history, select_battery in Hr.
    apply filter_In in Hr. destruct Hr as [Hr Hid].
    apply String.eqb_eq in Hid.
    destruct (health_df_rows df r Hr) as (? & ? & ?). auto.
  - apply health_df_perm.
  - unfold b_history, select_battery.
    rewrite (map_filter_comm meta
               (fun r => String.eqb (battery_id r) selected_id)).
    apply Permutation_filter', health_df_perm.
  - apply health_df_sorted.
  - apply select_battery_sorted, health_df_sorted.
  - unfold well_numbered, b_history. cbn [load_metadata snd].
    apply (select_battery_cycles selected_id []).
Qed.

(** The sample table: of the five rows of B0005 two are kept, in test
    order, numbered 1 and 2. *)
Example ingestion_sample :
  map (fun r => (test_id (meta r), Capacity r, cycle r))
      (b_history sample_metadata "B0005")
  = [(1%Z, 2, 1%Z); (3%Z, 18 # 10, 2%Z)].
Proof. reflexivity. Qed.

(** * Further properties of the page *)

(** ** The forecast line *)

(** X3.  With a slope that is not zero, the fitted line passes through
    [EOL_THRESHOLD] at [predicted_end_cycle], and the dashed forecast runs
    from cycle 1 to 20 cycles past it, where its value is the threshold
    plus 20 slopes: below the red line for a falling trend. *)
Theorem forecast_meets_threshold z (a : HealthRow) (l : list HealthRow) :
  ~ coef_ (trend (a :: l)) == 0 ->
  exists f p, estimate z (a :: l) = Returned (f, p) /\
    exists v x2 y1 y2,
      predict (trend (a :: l)) [predicted_end_cycle p] = Returned [Fin v] /\
      v == EOL_THRESHOLD /\
      forecast (trend (a :: l)) (predicted_end_cycle p)
      = Returned [(Fin 1, Fin y1); (Fin x2, Fin y2)] /\
      y1 == m p + c p /\
      x2 == (EOL_THRESHOLD - c p) / m p + 20 /\
      y2 == EOL_THRESHOLD + 20 * m p.
Proof.
  intros Hm.
  destruct (estimate_nonzero_slope z a l Hm) as (f & p & He & Hq & _).
  destruct (estimate_Returned _ _ _ _ He) as (_ & Hmp & Hcp & _).
  exists f, p. split; [exact He|].
  rewrite Hq, forecast_finite. unfold predict.
  cbn [forallb is_finite andb fadd fmul map]. rewrite <- Hmp, <- Hcp.
  rewrite <- Hmp in Hm.
  eexists _, _, _, _. split; [reflexivity|].
  split; [field; exact Hm|]. split; [reflexivity|].
  split; [ring|]. split; [reflexivity|]. field. exact Hm.
Qed.

Lemma forecast_meets_threshold_witness :
  ~ coef_ (trend scenario_decline) == 0 /\
  exists f p v, estimate false scenario_decline = Returned (f, p) /\
    predict (trend scenario_decline) [predicted_end_cycle p]
    = Returned [Fin v] /\
    v == EOL_THRESHOLD.
Proof.
  assert (Hm : ~ coef_ (trend scenario_decline) == 0) by qdecide.
  split; [exact Hm|].
  destruct (forecast_meets_threshold false (row "B0005" 1 2 1)
              (history_from 2 [18 # 10; 16 # 10]) Hm)
    as (f & p & He & v & _ & _ & _ & Hv & Hlim & _).
  exists f, p, v. split; [exact He|]. split; [exact Hv | exact Hlim].
Defined.

(** ** A history that lies on a line *)

Section Exact.

Context {A : Type} (fx fy : A -> Q).

Lemma line_exact (l : list A) (s b : Q) (r1 r2 : A) :
  In r1 l -> In r2 l -> ~ fx r1 == fx r2 ->
  (forall r, In r l -> fy r == s * fx r + b) ->
  coef_ (lstsq_line (map fx l) (map fy l)) == s /\
  intercept_ (lstsq_line (map fx l) (map fy l)) == b.
Proof.
  intros H1 H2 Hne Hon.
  set (w := coef_ (lstsq_line (map fx l) (map fy l))).
  set (k := intercept_ (lstsq_line (map fx l) (map fy l))).
  assert (Hzero : sse (map fx l) (map fy l) s b == 0).
  { rewrite sse_sums, (sum_over_ext_in _ (fun _ => 0)).
    - rewrite sum_over_const. ring.
    - intros r Hr. rewrite (Hon r Hr). ring. }
  pose proof (lstsq_line_minimal fx fy l s b) as Hmin.
  fold w k in Hmin. rewrite Hzero, sse_sums in Hmin.
  assert (Hfit : forall r, In r l -> fy r == w * fx r + k).
  { intros r Hr.
    assert (Hsq : (fy r - (w * fx r + k)) * (fy r - (w * fx r + k)) == 0).
    { apply (sum_over_zero
               (fun r => (fy r - (w * fx r + k)) * (fy r - (w * fx r + k)))
               l); auto.
      - intros r' _. apply Qsquare_nonneg.
      - pose proof (sum_over_nonneg
                      (fun r => (fy r - (w * fx r + k))
                                * (fy r - (w * fx r + k))) l
                      (fun r' _ => Qsquare_nonneg _)). lra. }
    apply Qmult_integral in Hsq. lra. }
  pose proof (Hfit r1 H1) as F1. pose proof (Hfit r2 H2) as F2.
  rewrite (Hon r1 H1) in F1. rewrite (Hon r2 H2) in F2.
  assert (Hprod : (s - w) * (fx r1 - fx r2) == 0) by lra.
  apply Qmult_integral in Hprod.
  assert (Hs : w == s) by (destruct Hprod; [lra | exfalso; apply Hne; lra]).
  split; [exact Hs|]. rewrite Hs in F1. lra.
Qed.

End Exact.

(** X4.  When every record of a history lies on one line
    [capacity = s * cycle + b] and two records differ in cycle, the fit
    returns that line: slope [s] and intercept [b]. *)
Theorem linear_history_recovered (h : list HealthRow) (s b : Q)
        (r1 r2 : HealthRow) :
  In r1 h -> In r2 h -> cycle r1 <> cycle r2 ->
  (forall r, In r h -> Capacity r == s * inject_Z (cycle r) + b) ->
  coef_ (trend h) == s /\ intercept_ (trend h) == b.
Proof.
  intros H1 H2 Hne Hon. rewrite trend_line.
  apply (line_exact cyc Capacity h s b r1 r2 H1 H2); [|exact Hon].
  unfold cyc. intros E. apply Hne. now apply inject_Z_injective.
Qed.

Lemma linear_history_recovered_witness :
  coef_ (trend scenario_decline) == - (2 # 10) /\
  intercept_ (trend scenario_decline) == 22 # 10.
Proof.
  apply (linear_history_recovered scenario_decline (- (2 # 10)) (22 # 10)
           (row "B0005" 1 2 1) (row "B0005" 2 (18 # 10) 2)).
  - cbn. auto.
  - cbn. auto.
  - cbn. discriminate.
  - intros r Hr. cbn in Hr.
    destruct Hr as [<-|[<-|[<-|[]]]]; vm_compute; reflexivity.
Defined.

(** ** A history with one cycle value *)

(** X5.  A history whose cycle column holds a single value, as that of a
    battery with one discharge record, never reaches the alert: the
    quotient by the zero slope is an infinity or a NaN, and either [int]
    stops the script with OverflowError, or [remaining_cycles] is 0 and
    [model.predict] stops it with ValueError on the forecast end. *)
Theorem single_cycle_never_alerts z (a : HealthRow) (l : list HealthRow) :
  (forall r, In r l -> cycle r = cycle a) ->
  raises (page_alert z (a :: l)) /\
  (estimate z (a :: l) = Raised OverflowError
   \/ exists f p, estimate z (a :: l) = Returned (f, p) /\
        remaining_cycles p = 0%Z /\
        page_alert z (a :: l) = Raised ValueError).
Proof.
  intros Hc.
  assert (Hm : coef_ (trend (a :: l)) == 0)
    by now rewrite (trend_constant_cycle a l Hc).
  assert (Hcase :
    estimate z (a :: l) = Raised OverflowError
    \/ exists f p, estimate z (a :: l) = Returned (f, p) /\
         remaining_cycles p = 0%Z /\
         page_alert z (a :: l) = Raised ValueError).
  { destruct (fdiv_zero z (EOL_THRESHOLD - intercept_ (trend (a :: l)))
                (coef_ (trend (a :: l))) Hm) as [Hq|Hq].
    - left. now apply zero_slope_overflow.
    - right.
      assert (He : exists f p, estimate z (a :: l) = Returned (f, p) /\
                     remaining_cycles p = 0%Z /\
                     is_finite (predicted_end_cycle p) = false).
      { rewrite estimate_cons. cbn zeta.
        destruct Hq as [Hq|Hq]; rewrite Hq;
          cbn [fsub py_max0 fgt0 py_int bind];
          eexists _, _; (split; [reflexivity|]);
          cbn [predicted_end_cycle remaining_cycles]; split; reflexivity. }
      destruct He as (f & p & He & Hz & Hf).
      exists f, p. split; [exact He|]. split; [exact Hz|].
      exact (page_alert_not_finite z _ f p He Hf). }
  split; [|exact Hcase].
  destruct Hcase as [He|(f & p & _ & _ & Ha)].
  - exists OverflowError. unfold page_alert. now rewrite He.
  - now exists ValueError.
Qed.

Lemma single_cycle_never_alerts_witness :
  (forall r, In r [] -> cycle r = cycle (row "B0005" 1 2 1)) /\
  raises (page_alert false [row "B0005" 1 2 1]).
Proof.
  assert (Hc : forall r, In r [] -> cycle r = cycle (row "B0005" 1 2 1))
    by (intros r []).
  split; [exact Hc|].
  exact (proj1 (single_cycle_never_alerts false (row "B0005" 1 2 1) [] Hc)).
Defined.

(** ** More on ingestion *)

Lemma discharge_rows_kept (df : list MetaRow) :
  discharge_rows (filter kept df) = discharge_rows df.
Proof.
  induction df as [|r df IH]; [reflexivity|].
  cbn [filter discharge_rows]. unfold kept at 1.
  destruct (String.eqb (type r) "discharge") eqn:Et; cbn [andb]; [|exact IH].
  destruct (to_numeric (raw_Capacity r)) eqn:Ec; [|exact IH].
  cbn [discharge_rows]. now rewrite Et, Ec, IH.
Qed.

Lemma discharge_rows_of_kept (df df' : list MetaRow) :
  filter kept df = filter kept df' -> discharge_rows df = discharge_rows df'.
Proof.
  intros H. now rewrite <- (discharge_rows_kept df), H, discharge_rows_kept.
Qed.

(** X6.  Rows of another type and rows whose [Capacity] does not coerce
    have no effect on [health_df]: two tables with the same discharge rows
    of valid capacity, in the same order, give the same table, cycle
    numbers included. *)
Theorem dropped_rows_do_not_matter (df df' : list MetaRow) :
  filter kept df = filter kept df' ->
  snd (load_metadata df) = snd (load_metadata df') /\
  forall id, b_history df id = b_history df' id.
Proof.
  intros H. apply discharge_rows_of_kept in H.
  unfold b_history. cbn [load_metadata snd]. rewrite H. auto.
Qed.

Lemma dropped_rows_do_not_matter_witness :
  filter kept sample_metadata
  = filter kept [ meta_row "B0005" 3 "discharge" (Numeric (18 # 10));
                  meta_row "B0005" 1 "discharge" (Numeric 2);
                  meta_row "B0006" 0 "discharge" (Numeric (19 # 10)) ] /\
  b_history sample_metadata "B0005"
  = b_history [ meta_row "B0005" 3 "discharge" (Numeric (18 # 10));
                meta_row "B0005" 1 "discharge" (Numeric 2);
                meta_row "B0006" 0 "discharge" (Numeric (19 # 10)) ] "B0005".
Proof.
  assert (H : filter kept sample_metadata
              = filter kept
                  [ meta_row "B0005" 3 "discharge" (Numeric (18 # 10));
                    meta_row "B0005" 1 "discharge" (Numeric 2);
                    meta_row "B0006" 0 "discharge" (Numeric (19 # 10)) ])
    by reflexivity.
  split; [exact H|].
  exact (proj2 (dropped_rows_do_not_matter _ _ H) "B0005"%string).
Defined.

(** Inserting into an ordered table and keeping the rows that pass a test
    can be done in either order. *)
Lemma insert_row_head (x : MetaRow * Q) (l : list (MetaRow * Q)) :
  (forall y, In y l -> key_le (fst x) (fst y)) -> insert_row x l = x :: l.
Proof.
  destruct l as [|y l]; [reflexivity|]. intros H. cbn [insert_row].
  now rewrite (H y (or_introl eq_refl)).
Qed.

Lemma filter_insert_row (p : MetaRow * Q -> bool) (x : MetaRow * Q)
      (l : list (MetaRow * Q)) :
  StronglySorted (fun a b => key_le (fst a) (fst b)) l ->
  filter p (insert_row x l) =
  if p x then insert_row x (filter p l) else filter p l.
Proof.
  induction 1 as [|y l Hs IH Hall]; cbn [insert_row filter].
  - destruct (p x); reflexivity.
  - destruct (key_leb (fst x) (fst y)) eqn:E.
    + cbn [filter]. destruct (p x); [|reflexivity].
      symmetry. apply insert_row_head. intros y' Hy'.
      assert (Hin : In y' (y :: l)).
      { destruct (p y); [|apply filter_In in Hy'; simpl; tauto].
        destruct Hy' as [<-|Hy']; [simpl; auto|].
        apply filter_In in Hy'. simpl; tauto. }
      destruct Hin as [<-|Hin]; [exact E|].
      rewrite Forall_forall in Hall.
      apply (key_le_trans _ (fst y)); [exact E | now apply Hall].
    + cbn [filter]. rewrite IH.
      destruct (p y), (p x); cbn [insert_row]; rewrite ?E; reflexivity.
Qed.

Lemma filter_sort_values (p : MetaRow * Q -> bool) (l : list (MetaRow * Q)) :
  filter p (sort_values l) = sort_values (filter p l).
Proof.
  induction l as [|x l IH]; [reflexivity|].
  cbn [sort_values filter].
  rewrite filter_insert_row by apply sort_values_sorted.
  rewrite IH. destruct (p x); reflexivity.
Qed.

Lemma discharge_rows_filter (id : string) (df : list MetaRow) :
  discharge_rows (filter (of_battery id) df)
  = filter (fun x => of_battery id (fst x)) (discharge_rows df).
Proof.
  induction df as [|r df IH]; [reflexivity|].
  cbn [filter discharge_rows].
  destruct (of_battery id r) eqn:Eb; cbn [discharge_rows];
    destruct (String.eqb (type r) "discharge"); try exact IH;
    destruct (to_numeric (raw_Capacity r)); try exact IH;
    cbn [filter fst]; rewrite Eb, IH; reflexivity.
Qed.

(** The numbers given to one battery count its own rows only. *)
Lemma select_add_cycle (id : string) (above above' : list string)
      (l : list (MetaRow * Q)) :
  count_occ string_dec above id = count_occ string_dec above' id ->
  select_battery (add_cycle above l) id
  = select_battery
      (add_cycle above' (filter (fun x => of_battery id (fst x)) l)) id.
Proof.
  revert above above'. induction l as [|[r q] l IH]; intros above above' Hc.
  - reflexivity.
  - cbn [add_cycle filter fst]. unfold of_battery at 1.
    destruct (String.eqb (battery_id r) id) eqn:E.
    + cbn [add_cycle select_battery filter meta]. rewrite E.
      apply String.eqb_eq in E. rewrite E, Hc. f_equal.
      apply (IH (id :: above) (id :: above')).
      rewrite !count_occ_cons_eq by reflexivity. now rewrite Hc.
    + cbn [select_battery filter meta]. rewrite E.
      apply (IH (battery_id r :: above) above').
      apply String.eqb_neq in E.
      now rewrite count_occ_cons_neq by exact E.
Qed.

(** X7.  Batteries do not affect one another: the history of a battery,
    its order and its cycle numbers are those obtained from the table
    with every other battery's rows removed. *)
Theorem batteries_independent (df : list MetaRow) (id : string) :
  b_history df id = b_history (filter (of_battery id) df) id.
Proof.
  unfold b_history. cbn [load_metadata snd].
  rewrite discharge_rows_filter, <- filter_sort_values.
  apply select_add_cycle. reflexivity.
Qed.

Lemma StronglySorted_related {A : Type} (R : A -> A -> Prop) (l : list A)
      (a b : A) :
  StronglySorted R l -> In a l -> In b l -> a = b \/ R a b \/ R b a.
Proof.
  induction 1 as [|x l Hs IH Hall]; intros Ha Hb; [destruct Ha|].
  rewrite Forall_forall in Hall.
  destruct Ha as [<-|Ha], Hb as [<-|Hb]; auto.
Qed.

Lemma b_history_numbered (df : list MetaRow) (id : string) :
  well_numbered (b_history df id).
Proof.
  unfold well_numbered, b_history. cbn [load_metadata snd].
  apply (select_battery_cycles id []).
Qed.

Lemma b_history_perm (df : list MetaRow) (id : string) :
  Permutation (map meta (b_history df id))
              (filter (of_battery id) (filter kept df)).
Proof.
  unfold b_history, select_battery.
  rewrite (map_filter_comm meta (fun r => String.eqb (battery_id r) id)).
  apply Permutation_filter', health_df_perm.
Qed.

(** X8.  Within a history the cycle numbers follow the test sequence: a
    record with a smaller [test_id] has a smaller cycle, a record with a
    smaller cycle has no larger [test_id], and no two records share a
    cycle. *)
Theorem cycle_follows_test_order (df : list MetaRow) (id : string)
        (a b : HealthRow) :
  In a (b_history df id) -> In b (b_history df id) ->
  ((test_id (meta a) < test_id (meta b))%Z -> (cycle a < cycle b)%Z) /\
  ((cycle a < cycle b)%Z -> (test_id (meta a) <= test_id (meta b))%Z) /\
  (cycle a = cycle b -> a = b).
Proof.
  intros Ha Hb.
  assert (Hs : StronglySorted
                 (fun a b => (cycle a < cycle b)%Z /\ by_test_id a b)
                 (b_history df id)).
  { apply StronglySorted_conj.
    - apply well_numbered_sorted, b_history_numbered.
    - apply select_battery_sorted, health_df_sorted. }
  unfold by_test_id in Hs.
  destruct (StronglySorted_related _ _ a b Hs Ha Hb)
    as [->|[[Hc Ht]|[Hc Ht]]]; repeat split; intros; try lia; auto.
Qed.

Lemma cycle_follows_test_order_witness :
  exists a b, In a (b_history sample_metadata "B0005") /\
    In b (b_history sample_metadata "B0005") /\
    (test_id (meta a) < test_id (meta b))%Z /\ (cycle a < cycle b)%Z.
Proof.
  set (a := {| meta := meta_row "B0005" 1 "discharge" (Numeric 2);
               Capacity := 2; cycle := 1 |}).
  set (b := {| meta := meta_row "B0005" 3 "discharge" (Numeric (18 # 10));
               Capacity := 18 # 10; cycle := 2 |}).
  assert (Ha : In a (b_history sample_metadata "B0005")) by (cbn; auto).
  assert (Hb : In b (b_history sample_metadata "B0005")) by (cbn; auto).
  assert (Ht : (test_id (meta a) < test_id (meta b))%Z) by reflexivity.
  exists a, b. split; [exact Ha|]. split; [exact Hb|]. split; [exact Ht|].
  exact (proj1 (cycle_follows_test_order sample_metadata "B0005" a b Ha Hb)
               Ht).
Defined.

Lemma numbered_last (s : nat) (a : HealthRow) (l : list HealthRow) :
  map cycle (a :: l) = map Z.of_nat (seq s (List.length (a :: l))) ->
  cycle (last l a) = Z.of_nat (s + List.length l).
Proof.
  revert s a. induction l as [|b l IH]; intros s a H.
  - cbn in H. injection H as H. cbn. rewrite H. f_equal. lia.
  - rewrite last_cons, (IH (S s) b (f_equal (@tl Z) H)).
    cbn [List.length]. f_equal. lia.
Qed.

(** X9.  For a battery that has a history, [current_cycle] is the number
    of its records, which is the number of its discharge rows of valid
    capacity in the metadata table; the baseline is its first record. *)
Theorem current_cycle_is_count (df : list MetaRow) (id : string) :
  b_history df id <> [] ->
  exists f, data_filtering (b_history df id) = Returned f /\
    current_cycle f = Z.of_nat (List.length (b_history df id)) /\
    current_cycle f
    = Z.of_nat (List.length (filter (of_battery id) (filter kept df))) /\
    (forall r, In r (b_history df id) ->
       (1 <= cycle r <= current_cycle f)%Z).
Proof.
  intros Hne.
  pose proof (b_history_numbered df id) as Hn.
  pose proof (b_history_perm df id) as Hp.
  destruct (b_history df id) as [|a l] eqn:E; [contradiction|].
  eexists. split; [apply data_filtering_cons|]. cbn [current_cycle].
  assert (Hc : cycle (last l a) = Z.of_nat (List.length (a :: l))).
  { rewrite (numbered_last 1 a l Hn). reflexivity. }
  split; [exact Hc|]. split.
  - rewrite Hc. f_equal.
    rewrite <- (Permutation_length Hp). now rewrite length_map.
  - intros r Hr. rewrite Hc.
    apply (in_map cycle) in Hr. rewrite Hn in Hr.
    apply in_map_iff in Hr. destruct Hr as (k & <- & Hk).
    apply in_seq in Hk. lia.
Qed.

Lemma current_cycle_is_count_witness :
  b_history sample_metadata "B0005" <> [] /\
  exists f, data_filtering (b_history sample_metadata "B0005") = Returned f /\
    current_cycle f = 2%Z.
Proof.
  assert (Hne : b_history sample_metadata "B0005" <> [])
    by (cbn; discriminate).
  split; [exact Hne|].
  destruct (current_cycle_is_count sample_metadata "B0005" Hne)
    as (f & Hf & Hc & _).
  exists f. split; [exact Hf | exact Hc].
Defined.

(** ** The sidebar *)

Lemma existsb_eqb_In (x : string) (l : list string) :
  existsb (String.eqb x) l = true <-> In x l.
Proof.
  rewrite existsb_exists. split.
  - intros (y & Hy & E). apply String.eqb_eq in E. now subst.
  - intros H. exists x. split; [exact H | apply String.eqb_refl].
Qed.

Lemma unique_from_In (seen l : list string) (x : string) :
  In x (unique_from seen l) <-> In x l /\ ~ In x seen.
Proof.
  revert seen. induction l as [|y l IH]; intros seen; cbn [unique_from].
  - simpl. tauto.
  - destruct (existsb (String.eqb y) seen) eqn:E.
    + apply existsb_eqb_In in E. rewrite IH. simpl. split.
      * tauto.
      * intros [[<-|H] Hn]; [contradiction | tauto].
    + assert (Hy : ~ In y seen).
      { intros H. apply existsb_eqb_In in H. congruence. }
      simpl. rewrite IH. simpl. split.
      * intros [<-|[H Hn]]; [tauto|]. split; [tauto|]. intros Hs. apply Hn.
        now right.
      * intros [[<-|H] Hn]; [now left|].
        destruct (string_dec y x) as [->|Hne]; [now left|].
        right. split; [exact H|]. intros [Hs|Hs]; [contradiction | tauto].
Qed.

Lemma unique_from_NoDup (seen l : list string) : NoDup (unique_from seen l).
Proof.
  revert seen. induction l as [|y l IH]; intros seen; cbn [unique_from].
  - constructor.
  - destruct (existsb (String.eqb y) seen); [apply IH|].
    constructor; [|apply IH].
    intros H. apply unique_from_In in H. destruct H as [_ H].
    apply H. now left.
Qed.

Lemma string_leb_total (a b : string) :
  string_leb a b = false -> string_leb b a = true.
Proof.
  unfold string_leb.
  destruct (String_as_OT.compare_spec a b) as [E|L|G]; try discriminate.
  intros _. unfold String_as_OT.lt in G. now rewrite G.
Qed.

Lemma string_leb_iff (a b : string) :
  string_leb a b = true <-> a = b \/ String_as_OT.lt a b.
Proof.
  unfold string_leb.
  destruct (String_as_OT.compare_spec a b) as [E|L|G].
  - tauto.
  - tauto.
  - split; [discriminate|]. intros [E|L]; exfalso.
    + rewrite E in G. exact (StrictOrder_Irreflexive _ G).
    + exact (StrictOrder_Irreflexive _ (StrictOrder_Transitive _ _ _ L G)).
Qed.

Lemma string_leb_trans (a b d : string) :
  string_leb a b = true -> string_leb b d = true -> string_leb a d = true.
Proof.
  rewrite !string_leb_iff. intros [->|L1] [->|L2]; auto.
  right. exact (StrictOrder_Transitive _ _ _ L1 L2).
Qed.

Lemma insert_string_perm (x : string) (l : list string) :
  Permutation (x :: l) (insert_string x l).
Proof.
  induction l as [|y l IH]; cbn [insert_string]; [reflexivity|].
  destruct (string_leb x y); [reflexivity|].
  rewrite perm_swap. now constructor.
Qed.

Lemma sorted_perm (l : list string) : Permutation l (sorted l).
Proof.
  induction l as [|x l IH]; cbn [sorted]; [reflexivity|].
  rewrite <- insert_string_perm. now constructor.
Qed.

Lemma insert_string_sorted (x : string) (l : list string) :
  StronglySorted (fun a b => string_leb a b = true) l ->
  StronglySorted (fun a b => string_leb a b = true) (insert_string x l).
Proof.
  induction 1 as [|y l Hs IH Hall]; cbn [insert_string].
  - repeat constructor.
  - destruct (string_leb x y) eqn:E.
    + constructor; [now constructor|].
      constructor; [exact E|].
      rewrite Forall_forall in *. intros z Hz.
      apply (string_leb_trans _ y); [exact E | now apply Hall].
    + constructor; [exact IH|].
      rewrite Forall_forall in *. intros z Hz.
      apply (Permutation_in _ (Permutation_sym (insert_string_perm x l)))
        in Hz.
      destruct Hz as [<-|Hz]; [now apply string_leb_total | now apply Hall].
Qed.

Lemma sorted_sorted (l : list string) :
  StronglySorted (fun a b => string_leb a b = true) (sorted l).
Proof.
  induction l as [|x l IH]; cbn [sorted].
  - constructor.
  - now apply insert_string_sorted.
Qed.

Lemma sorted_strict (l : list string) :
  NoDup l ->
  StronglySorted (fun a b => string_leb a b = true) l ->
  StronglySorted String_as_OT.lt l.
Proof.
  intros Hn Hs. induction Hs as [|x l Hs IH Hall]; [constructor|].
  inversion Hn as [|? ? Hx Hn']; subst.
  constructor; [now apply IH|].
  rewrite Forall_forall in *. intros y Hy.
  destruct (proj1 (string_leb_iff x y) (Hall y Hy)) as [->|L];
    [contradiction | exact L].
Qed.

Lemma select_battery_nonempty (health : list HealthRow) (id : string) :
  select_battery health id <> [] <->
  In id (map (fun r => battery_id (meta r)) health).
Proof.
  unfold select_battery. rewrite in_map_iff. split.
  - intros Hne.
    destruct (filter _ health) as [|r rest] eqn:E; [contradiction|].
    assert (Hr : In r (filter (fun r => String.eqb (battery_id (meta r)) id)
                              health)) by (rewrite E; simpl; auto).
    apply filter_In in Hr. destruct Hr as [Hr Hid].
    apply String.eqb_eq in Hid. now exists r.
  - intros (r & Hid & Hr) E.
    assert (Hin : In r (filter (fun r => String.eqb (battery_id (meta r)) id)
                               health)).
    { apply filter_In. split; [exact Hr|]. now apply String.eqb_eq. }
    rewrite E in Hin. destruct Hin.
Qed.

Lemma battery_list_members (health_data : list HealthRow) (id : string) :
  In id (battery_list health_data) -> select_battery health_data id <> [].
Proof.
  intros H. apply select_battery_nonempty. unfold battery_list in H.
  apply (Permutation_in _ (Permutation_sym (sorted_perm _))) in H.
  apply unique_from_In in H. tauto.
Qed.

(** X10.  The site list of the sidebar is in strictly ascending order,
    which leaves no battery listed twice, and it lists exactly the
    batteries that have a history. *)
Theorem battery_list_spec (health_data : list HealthRow) :
  StronglySorted String_as_OT.lt (battery_list health_data) /\
  NoDup (battery_list health_data) /\
  forall id, In id (battery_list health_data) <->
             select_battery health_data id <> [].
Proof.
  unfold battery_list.
  set (ids := map (fun r => battery_id (meta r)) health_data).
  assert (Hn : NoDup (sorted (unique ids))).
  { apply (Permutation_NoDup (sorted_perm _)), unique_from_NoDup. }
  split; [|split].
  - apply sorted_strict; [exact Hn | apply sorted_sorted].
  - exact Hn.
  - intros id. rewrite select_battery_nonempty. fold ids. split.
    + intros H.
      apply (Permutation_in _ (Permutation_sym (sorted_perm _))) in H.
      apply unique_from_In in H. tauto.
    + intros H. apply (Permutation_in _ (sorted_perm _)).
      apply unique_from_In. simpl. tauto.
Qed.

(** On a history with a record, the only exception left is the one of
    [int] on [+inf]. *)
Lemma estimate_cons_outcome z (a : HealthRow) (l : list HealthRow) :
  (exists e, estimate z (a :: l) = Returned e)
  \/ estimate z (a :: l) = Raised OverflowError.
Proof.
  rewrite estimate_cons. cbn zeta.
  destruct (fsub _ _) as [d| | |].
  - left. rewrite py_max0_Fin. cbn [py_int bind]. eexists. reflexivity.
  - right. reflexivity.
  - left. cbn. eexists. reflexivity.
  - left. cbn. eexists. reflexivity.
Qed.

(** X11.  The page stops with IndexError exactly when the sidebar has
    nothing to offer: when the table has no discharge row of valid
    capacity, every pick does; and for every site the sidebar does offer,
    the selected history has a record, so the estimator returns or stops
    with OverflowError, never with IndexError. *)
Theorem page_estimate_index_error (z : bool) (df : list MetaRow) :
  (filter kept df = [] ->
   battery_list (snd (load_metadata df)) = [] /\
   forall choice, page_estimate z df choice = Raised IndexError) /\
  (forall choice,
     (choice < List.length (battery_list (snd (load_metadata df))))%nat ->
     exists id,
       selectbox (battery_list (snd (load_metadata df))) choice = Some id /\
       b_history df id <> [] /\
       page_estimate z df choice = estimate z (b_history df id) /\
       ((exists e, page_estimate z df choice = Returned e)
        \/ page_estimate z df choice = Raised OverflowError)).
Proof.
  split.
  - intros Hk.
    assert (Hh : snd (load_metadata df) = []).
    { pose proof (health_df_perm df) as Hp. rewrite Hk in Hp.
      apply Permutation_sym, Permutation_nil in Hp.
      destruct (snd (load_metadata df)); [reflexivity | discriminate]. }
    unfold page_estimate. rewrite Hh. split; [reflexivity|].
    intros choice. unfold selectbox. cbn [battery_list map unique
                                            unique_from sorted].
    destruct choice; reflexivity.
  - intros choice Hc. unfold page_estimate, selectbox.
    destruct (nth_error (battery_list (snd (load_metadata df))) choice)
      as [id|] eqn:E.
    + exists id. split; [reflexivity|].
      assert (Hne : b_history df id <> []).
      { apply (battery_list_members (snd (load_metadata df)) id).
        exact (nth_error_In _ _ E). }
      split; [exact Hne|]. cbn [select_rows]. fold (b_history df id).
      split; [reflexivity|].
      destruct (b_history df id) as [|a l]; [contradiction|].
      apply estimate_cons_outcome.
    + apply nth_error_None in E. lia.
Qed.

Lemma page_estimate_index_error_witness :
  (0 < List.length (battery_list (snd (load_metadata sample_metadata))))%nat /\
  exists id,
    selectbox (battery_list (snd (load_metadata sample_metadata))) 0
    = Some id /\
    b_history sample_metadata id <> [].
Proof.
  assert (Hc : (0 < List.length
                      (battery_list (snd (load_metadata sample_metadata))))%nat)
    by (vm_compute; lia).
  split; [exact Hc|].
  destruct (proj2 (page_estimate_index_error false sample_metadata) 0%nat Hc)
    as (id & Hs & Hne & _).
  exists id. split; [exact Hs | exact Hne].
Defined.

(** ** The sensor tab *)

Lemma insert_desc_perm (x : MetaRow) (l : list MetaRow) :
  Permutation (x :: l) (insert_desc x l).
Proof.
  induction l as [|y l IH]; cbn [insert_desc]; [reflexivity|].
  destruct (test_id y <=? test_id x)%Z; [reflexivity|].
  rewrite perm_swap. now constructor.
Qed.

Lemma sort_test_id_desc_perm (l : list MetaRow) :
  Permutation l (sort_test_id_desc l).
Proof.
  induction l as [|x l IH]; cbn [sort_test_id_desc]; [reflexivity|].
  rewrite <- insert_desc_perm. now constructor.
Qed.

Lemma insert_desc_sorted (x : MetaRow) (l : list MetaRow) :
  StronglySorted (fun a b => (test_id b <= test_id a)%Z) l ->
  StronglySorted (fun a b => (test_id b <= test_id a)%Z) (insert_desc x l).
Proof.
  induction 1 as [|y l Hs IH Hall]; cbn [insert_desc].
  - repeat constructor.
  - destruct (Z.leb_spec (test_id y) (test_id x)) as [E|E].
    + constructor; [now constructor|].
      constructor; [exact E|].
      rewrite Forall_forall in *. intros r Hr.
      specialize (Hall r Hr). cbn beta in Hall. lia.
    + constructor; [exact IH|].
      rewrite Forall_forall in *. intros r Hr.
      apply (Permutation_in _ (Permutation_sym (insert_desc_perm x l))) in Hr.
      destruct Hr as [<-|Hr]; [lia | now apply Hall].
Qed.

Lemma sort_test_id_desc_sorted (l : list MetaRow) :
  StronglySorted (fun a b => (test_id b <= test_id a)%Z)
                 (sort_test_id_desc l).
Proof.
  induction l as [|x l IH]; cbn [sort_test_id_desc].
  - constructor.
  - now apply insert_desc_sorted.
Qed.

(** X12.  The log list of the sensor tab holds every row of the selected
    battery, of any type and with any capacity, each once, latest test
    first: the file offered first has the largest [test_id], and every
    record of the battery's history is among the logs. *)
Theorem site_files_spec (metadata_all : list MetaRow) (selected_id : string) :
  Permutation (site_files metadata_all selected_id)
              (filter (of_battery selected_id) metadata_all) /\
  StronglySorted (fun a b => (test_id b <= test_id a)%Z)
                 (site_files metadata_all selected_id) /\
  (forall first rest, site_files metadata_all selected_id = first :: rest ->
     forall r, In r metadata_all -> battery_id r = selected_id ->
       (test_id r <= test_id first)%Z) /\
  (forall r, In r (b_history metadata_all selected_id) ->
     In (meta r) (site_files metadata_all selected_id)).
Proof.
  assert (Hp : Permutation (site_files metadata_all selected_id)
                           (filter (of_battery selected_id) metadata_all)).
  { unfold site_files. apply Permutation_sym, sort_test_id_desc_perm. }
  assert (Hs : StronglySorted (fun a b => (test_id b <= test_id a)%Z)
                              (site_files metadata_all selected_id)).
  { apply sort_test_id_desc_sorted. }
  split; [exact Hp|]. split; [exact Hs|]. split.
  - intros first rest E r Hr Hid.
    assert (Hin : In r (site_files metadata_all selected_id)).
    { apply (Permutation_in _ (Permutation_sym Hp)), filter_In.
      split; [exact Hr|]. unfold of_battery. now apply String.eqb_eq. }
    rewrite E in Hin, Hs. inversion Hs as [|? ? _ Hall]; subst.
    rewrite Forall_forall in Hall.
    destruct Hin as [<-|Hin]; [lia | now apply Hall].
  - intros r Hr.
    apply (Permutation_in _ (Permutation_sym Hp)), filter_In.
    unfold b_history, select_battery in Hr. apply filter_In in Hr.
    destruct Hr as [Hr Hid]. split; [|exact Hid].
    now destruct (health_df_rows metadata_all r Hr).
Qed.

Lemma has_column_true (name : string) (columns : list string) :
  has_column name columns = true -> In name columns.
Proof. apply existsb_eqb_In. Qed.

(** X13.  Whatever column names the sensor file has, each chart is given a
    column of that file; the choice fails, with IndexError, only for a
    file without any column. *)
Theorem plotted_column_exists (columns : list string) :
  (forall name, v_col columns = Returned name -> In name columns) /\
  (forall name, t_col columns = Returned name -> In name columns) /\
  (raises (v_col columns) <-> columns = []) /\
  (raises (t_col columns) <-> columns = []) /\
  (In "Voltage_measured"%string columns ->
   v_col columns = Returned "Voltage_measured"%string) /\
  (In "Temperature_measured"%string columns ->
   t_col columns = Returned "Temperature_measured"%string).
Proof.
  unfold v_col, t_col, raises.
  split; [|split; [|split; [|split; [|split]]]].
  - intros name.
    destruct (has_column "Voltage_measured" columns) eqn:E.
    + intros [= <-]. now apply has_column_true.
    + destruct columns; [discriminate|]. intros [= <-]. now left.
  - intros name.
    destruct (has_column "Temperature_measured" columns) eqn:E.
    + intros [= <-]. now apply has_column_true.
    + destruct columns; [discriminate|]. intros [= <-]. now left.
  - destruct (has_column "Voltage_measured" columns) eqn:E.
    + split; [intros [e He]; discriminate|].
      intros ->. discriminate.
    + destruct columns; split; auto.
      * intros _. now exists IndexError.
      * intros [e He]. discriminate.
      * discriminate.
  - destruct (has_column "Temperature_measured" columns) eqn:E.
    + split; [intros [e He]; discriminate|].
      intros ->. discriminate.
    + destruct columns; split; auto.
      * intros _. now exists IndexError.
      * intros [e He]. discriminate.
      * discriminate.
  - intros H. apply existsb_eqb_In in H. unfold has_column. now rewrite H.
  - intros H. apply existsb_eqb_In in H. unfold has_column. now rewrite H.
Qed.
